(** * dataset_gui.py: the curve lookup, overlay and marker computations

    A shallow embedding of [load_data], [update_plot_N] and [update_plot_C]
    of [src/dataset_gui.py], and the properties of the lookup / overlay /
    marker engine stated over it.

    Numbers.  The program computes with IEEE binary64 values (Python [float],
    NumPy [float64]).  The embedding is written once over an interface
    [Float64] of the operations the source uses and is read at two instances:
    - [binary64]: Rocq's primitive floats, i.e. the very arithmetic Python and
      NumPy perform (round to nearest even, signed zeros, infinities, NaN);
    - [exact]: rationals extended with [+inf], [-inf] and [NaN], NumPy's
      division by zero included, but with no rounding and an unsigned zero.
      This is the instance in which the algebraic laws are stated. *)

From Stdlib Require Import ZArith QArith Qcanon List String Ascii Bool Lia Lqa.
Local Open Scope string_scope.
From Stdlib Require Import PrimFloat Uint63.
Import ListNotations.

Set Implicit Arguments.
Local Open Scope Z_scope.

(** ** The arithmetic interface *)

Class Float64 (F : Type) : Type := {
  of_int : Z -> F;            (* conversion of a Python int operand *)
  fadd : F -> F -> F;
  fsub : F -> F -> F;
  fmul : F -> F -> F;
  fdiv : F -> F -> F;         (* NumPy true division: x/0 is inf or nan, never raises *)
  feqb : F -> F -> bool;      (* == *)
  fltb : F -> F -> bool       (* <  *)
}.

Declare Scope f64_scope.
Delimit Scope f64_scope with f64.
Infix "+" := fadd : f64_scope.
Infix "-" := fsub : f64_scope.
Infix "*" := fmul : f64_scope.
Infix "/" := fdiv : f64_scope.
Infix "==" := feqb (at level 70, no associativity) : f64_scope.
Infix "<?" := fltb : f64_scope.

(** *** binary64: the primitive floats *)

Module Binary64.

(** The integers of the program are small (at most 1000000), far below the
    2^53 up to which the conversion is exact. *)

Definition of_int (z : Z) : float :=
  match z with
  | Z0 => PrimFloat.zero
  | Zpos _ => PrimFloat.of_uint63 (Uint63.of_Z z)
  | Zneg p => PrimFloat.opp (PrimFloat.of_uint63 (Uint63.of_Z (Zpos p)))
  end.

End Binary64.

#[export] Instance binary64 : Float64 float := {|
  of_int := Binary64.of_int;
  fadd := PrimFloat.add;
  fsub := PrimFloat.sub;
  fmul := PrimFloat.mul;
  fdiv := PrimFloat.div;
  feqb := PrimFloat.eqb;
  fltb := PrimFloat.ltb
|}.

(** *** exact: extended rationals *)

Inductive xq : Type :=
| Fin (q : Qc)
| PInf
| NInf
| NaN.

Module Exact.

Definition Qc_eqb (a b : Qc) : bool := Qeq_bool a b.
Definition Qc_ltb (a b : Qc) : bool := negb (Qle_bool b a).

Definition is_zero (q : Qc) : bool := Qc_eqb q 0%Qc.
Definition is_pos (q : Qc) : bool := Qc_ltb 0%Qc q.

(** the infinity carrying the sign of [q], [NaN] for zero *)
Definition signed_inf (q : Qc) : xq :=
  if is_zero q then NaN else if is_pos q then PInf else NInf.

Definition neg (x : xq) : xq :=
  match x with
  | Fin q => Fin (- q)%Qc
  | PInf => NInf
  | NInf => PInf
  | NaN => NaN
  end.

Definition add (x y : xq) : xq :=
  match x, y with
  | NaN, _ | _, NaN => NaN
  | Fin a, Fin b => Fin (a + b)%Qc
  | PInf, NInf | NInf, PInf => NaN
  | PInf, _ | _, PInf => PInf
  | NInf, _ | _, NInf => NInf
  end.

Definition sub (x y : xq) : xq := add x (neg y).

Definition mul (x y : xq) : xq :=
  match x, y with
  | NaN, _ | _, NaN => NaN
  | Fin a, Fin b => Fin (a * b)%Qc
  | Fin a, PInf | PInf, Fin a => signed_inf a
  | Fin a, NInf | NInf, Fin a => signed_inf (- a)%Qc
  | PInf, PInf | NInf, NInf => PInf
  | PInf, NInf | NInf, PInf => NInf
  end.

(** the zero of this instance is unsigned and divides like [+0.0] *)
Definition div (x y : xq) : xq :=
  match x, y with
  | NaN, _ | _, NaN => NaN
  | Fin a, Fin b => if is_zero b then signed_inf a else Fin (a / b)%Qc
  | Fin _, (PInf | NInf) => Fin 0%Qc
  | PInf, Fin b => if is_zero b || is_pos b then PInf else NInf
  | NInf, Fin b => if is_zero b || is_pos b then NInf else PInf
  | (PInf | NInf), (PInf | NInf) => NaN
  end.

Definition eqb (x y : xq) : bool :=
  match x, y with
  | Fin a, Fin b => Qc_eqb a b
  | PInf, PInf | NInf, NInf => true
  | _, _ => false
  end.

Definition ltb (x y : xq) : bool :=
  match x, y with
  | NaN, _ | _, NaN => false
  | Fin a, Fin b => Qc_ltb a b
  | NInf, (Fin _ | PInf) => true
  | Fin _, PInf => true
  | _, _ => false
  end.

Definition of_int (z : Z) : xq := Fin (Q2Qc (inject_Z z)).

End Exact.

#[export] Instance exact : Float64 xq := {|
  of_int := Exact.of_int;
  fadd := Exact.add;
  fsub := Exact.sub;
  fmul := Exact.mul;
  fdiv := Exact.div;
  feqb := Exact.eqb;
  fltb := Exact.ltb
|}.

(** ** Python and NumPy primitives *)

(** The exceptions the modelled statements can raise. *)
Inductive exn : Type :=
| ValueError          (* min() of an empty sequence *)
| IndexError          (* list index out of range; too many indices for an array *)
| KeyError            (* missing dictionary key *)
| TypeError           (* np.max of a structured (record) array *)
| UnboundLocalError   (* a local variable read before any assignment *)
| LoadError.          (* whatever np.loadtxt raises: ValueError on malformed
                         text, OSError on an unreadable file *)

(** A computation over the state [S] that returns or raises; the state
    reached when the exception is raised is kept. *)
Definition M (S A : Type) : Type := S -> (exn + A) * S.

Definition ret {S A} (a : A) : M S A := fun s => (inr a, s).
Definition raise {S A} (e : exn) : M S A := fun s => (inl e, s).
Definition bind {S A B} (m : M S A) (k : A -> M S B) : M S B :=
  fun s => match m s with
           | (inl e, s') => (inl e, s')
           | (inr a, s') => k a s'
           end.
Definition get {S} : M S S := fun s => (inr s, s).
Definition modify {S} (f : S -> S) : M S unit := fun s => (inr tt, f s).
Definition lift {S A} (r : exn + A) : M S A := fun s => (r, s).

Declare Scope py_scope.
Delimit Scope py_scope with py.
Notation "x <- m ;; k" := (bind m (fun x => k))
  (at level 61, m at next level, right associativity) : py_scope.
Notation "m ;;; k" := (bind m (fun _ => k))
  (at level 61, right associativity) : py_scope.

(** [l[i]] for a Python list: negative indices count from the end. *)
Definition py_index {A} (l : list A) (i : Z) : exn + A :=
  let n := Z.of_nat (List.length l) in
  let j := if i <? 0 then i + n else i in
  if (j <? 0) || (n <=? j) then inl IndexError
  else match nth_error l (Z.to_nat j) with
       | Some a => inr a
       | None => inl IndexError
       end.

(** [d[k]] for a dict kept as an association list with unique keys. *)
Fixpoint dict_get {V} (d : list (string * V)) (k : string) : exn + V :=
  match d with
  | [] => inl KeyError
  | (k', v) :: d' => if String.eqb k' k then inr v else dict_get d' k
  end.

(** [d[k] = v]: an existing key keeps its place, a new one goes last. *)
Fixpoint dict_set {V} (d : list (string * V)) (k : string) (v : V)
  : list (string * V) :=
  match d with
  | [] => [(k, v)]
  | (k', v') :: d' =>
      if String.eqb k' k then (k', v) :: d' else (k', v') :: dict_set d' k v
  end.

(** *** Strings *)

Fixpoint starts_with (p s : string) : bool :=
  match p, s with
  | EmptyString, _ => true
  | String a p', String b s' => Ascii.eqb a b && starts_with p' s'
  | String _ _, EmptyString => false
  end.

Fixpoint drop_chars (n : nat) (s : string) : string :=
  match n, s with
  | O, _ => s
  | S n', String _ s' => drop_chars n' s'
  | S _, EmptyString => EmptyString
  end.

(** [s.removeprefix(p)] *)
Definition removeprefix (p s : string) : string :=
  if starts_with p s then drop_chars (String.length p) s else s.

(** [s.split(sep)] for a non-empty separator: [cur] is the piece being read
    (reversed), [skip] the characters of a matched separator still to drop. *)
Fixpoint split_go (sep : string) (s : string) (cur : string) (skip : nat)
  : list string :=
  match s with
  | EmptyString => [cur]
  | String c s' =>
      match skip with
      | S k => split_go sep s' cur k
      | O =>
          if starts_with sep s
          then cur :: split_go sep s' EmptyString (String.length sep - 1)
          else split_go sep s' (cur ++ String c EmptyString)%string O
      end
  end.

Definition str_split (sep s : string) : list string :=
  split_go sep s EmptyString O.

(** ** Data of the application *)

(** A row of [n15_table] and of [c13_table]. *)
Record n15_row (F : Type) : Type := mkN15 {
  n_ms : Z; n_order : Z; n_field : F; n_field_angle : F; n_data : list F }.
Record c13_row (F : Type) : Type := mkC13 {
  c_ms : Z; c_order : Z; c_field : F; c_fam : string; c_data : list F }.

(** What [np.loadtxt] returns: the squeezed array, one- or two-dimensional. *)
Inductive ndarray (F : Type) : Type :=
| Arr1 (v : list F)
| Arr2 (rows : list (list F)).

(** The local variable [XY8]: unassigned, the structured array that
    [read_where] returned, or the float array [XY8["data"][0]]. *)
Inductive local (F R : Type) : Type :=
| Unbound
| Rows (rs : list R)
| Data (d : list F).
Arguments Unbound {F R}.
Arguments Rows {F R} rs.
Arguments Data {F R} d.

(** What has been drawn on [self.ax], in call order. *)
Inductive artist (F : Type) : Type :=
| Line (x y : list F) (label : string)              (* ax.plot *)
| Scatter (x y : list F) (label : string)           (* ax.scatter *)
| VLine (x : F) (label : string) (color : string)   (* ax.axvline *)
| Text (s : string).                                (* ax.text *)
Arguments Text {F} s.

Record message_box : Type := mkBox { box_title : string; box_text : string }.

(** Attributes set by [load_data]. *)
Record dataset (F : Type) : Type := mkDataset {
  N15_table : list (n15_row F);
  C13_table : list (c13_row F);
  tau : list F;
  freq : list F;
  gyromagnetic_ratios : list (string * F) }.

(** The widgets of the 15N tab, as [update_plot_N] reads them. *)
Record tab_N (F : Type) : Type := mkTabN {
  ms_widget_N : Z;                        (* int(currentText()) *)
  M_widget_N : Z;
  B0_widget_N : F;                        (* float(currentText()) *)
  theta_widget_N : F;
  gyromagnetic_widget_N : list string;    (* UserRole data of the selected items *)
  unit_btngrp_N : Z;                      (* checkedId() *)
  radio2_N : bool;                        (* isChecked() *)
  expt_chkbox_N : bool;
  expt_filename_N : string }.

(** The widgets of the 13C tab, as [update_plot_C] reads them. *)
Record tab_C (F : Type) : Type := mkTabC {
  ms_widget_C : Z;
  M_widget_C : Z;
  B0_widget_C : F;
  families_widget : list string;          (* text() of the selected items *)
  gyromagnetic_widget_C : list string;
  unit_btngrp_C : Z;
  radio2_C : bool;
  expt_chkbox_C : bool;
  expt_filename_C : string }.

(** The figure and what the user has been shown. *)
Record figure (F : Type) : Type := mkFigure {
  ax : list (artist F);
  xlabel : string;
  boxes : list message_box;               (* QMessageBox.exec() calls *)
  draws : nat;                            (* canvas.draw() calls *)
  plot_ready : bool }.

(** [self] *)
Record app (F : Type) : Type := mkApp {
  data : dataset F;
  tabN : tab_N F;
  tabC : tab_C F;
  fig : figure F }.

Section Program.

Context {F : Type} `{Float64 F}.

(** The module-level [colors] list and the files [np.loadtxt] can read. *)
Variable colors : list string.
Variable loadtxt : string -> exn + ndarray F.

Local Open Scope f64_scope.
Local Open Scope py_scope.

(** *** Literals and array operations *)

(** A decimal literal is the quotient of two integers, which is the
    nearest binary64 value since the division rounds correctly. *)
Definition lit_1e3 : F := of_int 1000.
Definition lit_1em3 : F := of_int 1 / of_int 1000.
Definition lit_1em6 : F := of_int 1 / of_int 1000000.
Definition lit_0_05 : F := of_int 5 / of_int 100.

Definition isnan (a : F) : bool := negb (a == a).

(** the builtin [min] over a sequence *)
Definition py_min (l : list F) : exn + F :=
  match l with
  | [] => inl ValueError
  | x :: r => inr (fold_left (fun m y => if y <? m then y else m) r x)
  end.

(** [np.maximum]: the first argument unless the second is greater; a NaN
    on either side is returned. *)
Definition np_maximum (a b : F) : F :=
  if (b <? a) || (a == b) || isnan a then a else b.

(** [np.max] of a one-dimensional float array *)
Definition np_max (l : list F) : exn + F :=
  match l with
  | [] => inl ValueError
  | x :: r => inr (fold_left np_maximum r x)
  end.

(** [np.max(XY8)] *)
Definition np_max_local {R} (v : local F R) : exn + F :=
  match v with
  | Unbound => inl UnboundLocalError
  | Rows _ => inl TypeError
  | Data d => np_max d
  end.

Fixpoint all_nth (k : nat) (rows : list (list F)) : exn + list F :=
  match rows with
  | [] => inr []
  | r :: rows' =>
      match nth_error r k, all_nth k rows' with
      | Some a, inr l => inr (a :: l)
      | _, _ => inl IndexError
      end
  end.

(** [a[:, k]] *)
Definition column (k : nat) (a : ndarray F) : exn + list F :=
  match a with
  | Arr1 _ => inl IndexError
  | Arr2 rows => all_nth k rows
  end.

(** [np.linspace(start, stop, num)] with the default [endpoint=True], as
    NumPy computes it: [arange(num) * step + start] with
    [step = (stop - start) / (num - 1)], the last entry set to [stop]. *)
Definition np_linspace (start stop : F) (num : nat) : list F :=
  let div := (Z.of_nat num - 1)%Z in
  let delta := stop - start in
  let y := map (fun i => of_int (Z.of_nat i)) (seq 0 num) in
  let y :=
    if (0 <? div)%Z
    then
      let step := delta / of_int div in
      if step == of_int 0
      then map (fun v => v / of_int div * delta) y
      else map (fun v => v * step) y
    else map (fun v => v * delta) y in
  let y := map (fun v => v + start) y in
  match num with
  | O | S O => y
  | _ => firstn (num - 1)%nat y ++ [stop]
  end.

(** *** State access *)

Definition St : Type := app F.

Definition with_fig (f : figure F -> figure F) (self : St) : St :=
  {| data := data self; tabN := tabN self; tabC := tabC self;
     fig := f (fig self) |}.

Definition ax_clear : M St unit :=
  modify (with_fig (fun g =>
    {| ax := []; xlabel := ""; boxes := boxes g; draws := draws g;
       plot_ready := plot_ready g |})).

Definition ax_add (a : artist F) : M St unit :=
  modify (with_fig (fun g =>
    {| ax := ax g ++ [a]; xlabel := xlabel g; boxes := boxes g;
       draws := draws g; plot_ready := plot_ready g |})).

Definition ax_set_xlabel (l : string) : M St unit :=
  modify (with_fig (fun g =>
    {| ax := ax g; xlabel := l; boxes := boxes g; draws := draws g;
       plot_ready := plot_ready g |})).

Definition box_exec (b : message_box) : M St unit :=
  modify (with_fig (fun g =>
    {| ax := ax g; xlabel := xlabel g; boxes := boxes g ++ [b];
       draws := draws g; plot_ready := plot_ready g |})).

Definition canvas_draw : M St unit :=
  modify (with_fig (fun g =>
    {| ax := ax g; xlabel := xlabel g; boxes := boxes g;
       draws := S (draws g); plot_ready := plot_ready g |})).

Definition set_plot_ready (b : bool) : M St unit :=
  modify (with_fig (fun g =>
    {| ax := ax g; xlabel := xlabel g; boxes := boxes g; draws := draws g;
       plot_ready := b |})).

(** *** [load_data] *)

(** [gyro_table] as the pairs (substance, value) that [zip] yields; the
    two simulation tables. *)
Record h5file : Type := mkH5 {
  n15_table : list (n15_row F);
  c13_table : list (c13_row F);
  gyro_table : list (string * F) }.

(** [{k: v for k, v in zip(...)}] *)
Definition gyromagnetic_ratios_raw (f : h5file) : list (string * F) :=
  fold_left (fun d kv => dict_set d (fst kv) (snd kv)) (gyro_table f) [].

(** the loop that renames the key ["H-1"] to ["<sup>1</sup>H"] *)
Fixpoint rename_keys (items : list (string * F)) (d : list (string * F))
  : exn + list (string * F) :=
  match items with
  | [] => inr d
  | (k, v) :: items' =>
      let temp_part := str_split "-" k in
      match py_index temp_part 1, py_index temp_part 0 with
      | inr t1, inr t0 =>
          rename_keys items' (dict_set d ("<sup>" ++ t1 ++ "</sup>" ++ t0) v)
      | inl e, _ | _, inl e => inl e
      end
  end.

(** [self.tau] and [self.freq], microseconds and megahertz *)
Definition load_tau : list F := np_linspace lit_0_05 (of_int 3) 1000.
Definition load_freq (tau : list F) : list F :=
  map (fun t => of_int 1 / of_int 2 / t) tau.

Definition load_data (f : h5file) : exn + dataset F :=
  let tau := load_tau in
  let freq := load_freq tau in
  match rename_keys (gyromagnetic_ratios_raw f) [] with
  | inl e => inl e
  | inr g =>
      inr {| N15_table := n15_table f; C13_table := c13_table f;
             tau := tau; freq := freq; gyromagnetic_ratios := g |}
  end.

(** *** Constants of the two [update_plot] methods *)

Definition unit_list : list F := [lit_1e3; of_int 1; lit_1em3; lit_1em6].
Definition unit_label_t : list string :=
  ["$\tau$ (ns)"; "$\tau$ ($\mu$s)"; "$\tau$ (ms)"; "$\tau$ (s)"].
Definition unit_label_f : list string :=
  ["f (GHz)"; "f (MHz)"; "f (kHz)"; "f (Hz)"].
Definition no_data_text : string :=
  "Simulation results are not available yet for these values".
Definition B0err : message_box :=
  {| box_title := "Cannot divide by zero";
     box_text := "B<sub>0</sub> can not be 0 for comparison with γ" |}.
Definition arxiv_text : string := "arXiv:2407.09411 [quant-ph]".

Definition gyro_key_map (key : string) : list string :=
  str_split "</sup>" (removeprefix "<sup>" key).

(** *** [update_plot_N] *)

(** [self.N15_table.read_where(...)] *)
Definition read_where_N (self : St) : list (n15_row F) :=
  let w := tabN self in
  filter (fun r => (n_order r =? M_widget_N w)%Z
                   && (n_field r == B0_widget_N w)
                   && (n_field_angle r == theta_widget_N w)
                   && (n_ms r =? ms_widget_N w)%Z)
         (N15_table (data self)).

(** The simulated curve (or the placeholder); returns the final [XY8]. *)
Definition sim_N : M St (local F (n15_row F)) :=
  self <- get ;;
  let XY8 := read_where_N self in
  match XY8 with
  | [] => ax_add (Text no_data_text) ;;; ret (Rows XY8)
  | r :: _ =>
      let XY8 := n_data r in
      u <- lift (py_index unit_list (unit_btngrp_N (tabN self))) ;;
      let x_axis :=
        if radio2_N (tabN self)
        then map (fun f => f / u) (freq (data self))
        else map (fun t => t * u) (tau (data self)) in
      ax_add (Line x_axis XY8 "Sim") ;;; ret (Data XY8)
  end.

(** The experimental data, if selected. *)
Definition expt_N (XY8 : local F (n15_row F)) : M St unit :=
  self <- get ;;
  if expt_chkbox_N (tabN self)
     && negb (String.eqb (expt_filename_N (tabN self)) "")
  then
    exp_data <- lift (loadtxt (expt_filename_N (tabN self))) ;;
    y <- lift (column 1 exp_data) ;;
    m <- lift (py_min y) ;;
    let p := map (fun v => v - m) y in
    x <- lift (column 0 exp_data) ;;
    top <- lift (np_max_local XY8) ;;
    ptop <- lift (np_max p) ;;
    ax_add (Scatter x (map (fun v => v * top / ptop) p) "Exp")
  else ret tt.

(** The vertical lines of the chosen gyromagnetic ratios:
    [for idx, val in enumerate(selected_gyromagnetic)]. *)
Fixpoint gyro_lines_N (idx : nat) (vals : list string) : M St unit :=
  match vals with
  | [] => ret tt
  | val :: rest =>
      self <- get ;;
      let selected_B0 := B0_widget_N (tabN self) in
      g <- lift (dict_get (gyromagnetic_ratios (data self)) val) ;;
      u <- lift (py_index unit_list (unit_btngrp_N (tabN self))) ;;
      let pos := of_int 1 / (of_int 2 * g / u * selected_B0 * lit_1em3) in
      let pos := if radio2_N (tabN self)
                 then of_int 1 / of_int 2 / pos else pos in
      let gyro_label := gyro_key_map val in
      l0 <- lift (py_index gyro_label 0) ;;
      l1 <- lift (py_index gyro_label 1) ;;
      c <- lift (py_index colors (Z.of_nat idx + 1)%Z) ;;
      ax_add (VLine pos ("$^{" ++ l0 ++ "}$" ++ l1) c) ;;;
      gyro_lines_N (S idx) rest
  end.

Definition markers_N : M St unit :=
  self <- get ;;
  let selected_B0 := B0_widget_N (tabN self) in
  let selected_gyromagnetic := gyromagnetic_widget_N (tabN self) in
  if negb (selected_B0 == of_int 0)
  then gyro_lines_N 0 selected_gyromagnetic
  else if (selected_B0 == of_int 0)
          && negb (List.length selected_gyromagnetic =? 0)%nat
       then box_exec B0err
       else ret tt.

(** Axis label, the arXiv reference, and the redraw.  The title, the
    legend and [tight_layout] leave the modelled state as it is. *)
Definition finish_N : M St unit :=
  self <- get ;;
  x_axis_label <-
    lift (if radio2_N (tabN self)
          then py_index unit_label_f (unit_btngrp_N (tabN self))
          else py_index unit_label_t (unit_btngrp_N (tabN self))) ;;
  ax_set_xlabel x_axis_label ;;;
  ax_add (Text arxiv_text) ;;;
  canvas_draw ;;;
  set_plot_ready true.

Definition update_plot_N : M St unit :=
  ax_clear ;;;
  XY8 <- sim_N ;;
  expt_N XY8 ;;;
  markers_N ;;;
  finish_N.

(** *** [update_plot_C] *)

Definition read_where_C (self : St) (fam : string) : list (c13_row F) :=
  let w := tabC self in
  filter (fun r => (c_order r =? M_widget_C w)%Z
                   && String.eqb (c_fam r) fam
                   && (c_field r == B0_widget_C w)
                   && (c_ms r =? ms_widget_C w)%Z)
         (C13_table (data self)).

(** [for fam in selected_fam]: [XY8] is rebound in every iteration and
    keeps its last value after the loop. *)
Fixpoint sim_C_loop (selected_fam : list string) (XY8 : local F (c13_row F))
  : M St (local F (c13_row F)) :=
  match selected_fam with
  | [] => ret XY8
  | fam :: rest =>
      self <- get ;;
      let XY8 := read_where_C self fam in
      match XY8 with
      | [] => ax_add (Text no_data_text) ;;; sim_C_loop rest (Rows XY8)
      | r :: _ =>
          let XY8 := c_data r in
          u <- lift (py_index unit_list (unit_btngrp_C (tabC self))) ;;
          let x_axis :=
            if radio2_C (tabC self)
            then map (fun f => f / u) (freq (data self))
            else map (fun t => t * u) (tau (data self)) in
          ax_add (Line x_axis XY8 fam) ;;; sim_C_loop rest (Data XY8)
      end
  end.

Definition sim_C : M St (local F (c13_row F)) :=
  self <- get ;;
  sim_C_loop (families_widget (tabC self)) Unbound.

Definition expt_C (XY8 : local F (c13_row F)) : M St unit :=
  self <- get ;;
  if expt_chkbox_C (tabC self)
     && negb (String.eqb (expt_filename_C (tabC self)) "")
  then
    exp_data <- lift (loadtxt (expt_filename_C (tabC self))) ;;
    y <- lift (column 1 exp_data) ;;
    m <- lift (py_min y) ;;
    let p := map (fun v => v - m) y in
    x <- lift (column 0 exp_data) ;;
    top <- lift (np_max_local XY8) ;;
    ptop <- lift (np_max p) ;;
    ax_add (Scatter x (map (fun v => v * top / ptop) p) "Exp")
  else ret tt.

Fixpoint gyro_lines_C (idx : nat) (vals : list string) : M St unit :=
  match vals with
  | [] => ret tt
  | val :: rest =>
      self <- get ;;
      let selected_B0 := B0_widget_C (tabC self) in
      g <- lift (dict_get (gyromagnetic_ratios (data self)) val) ;;
      u <- lift (py_index unit_list (unit_btngrp_C (tabC self))) ;;
      let pos := of_int 1 / (of_int 2 * g / u * selected_B0 * lit_1em3) in
      let pos := if radio2_C (tabC self)
                 then of_int 1 / of_int 2 / pos else pos in
      let gyro_label := gyro_key_map val in
      l0 <- lift (py_index gyro_label 0) ;;
      l1 <- lift (py_index gyro_label 1) ;;
      c <- lift (py_index colors (Z.of_nat idx + 1)%Z) ;;
      ax_add (VLine pos ("$^{" ++ l0 ++ "}$" ++ l1) c) ;;;
      gyro_lines_C (S idx) rest
  end.

Definition markers_C : M St unit :=
  self <- get ;;
  let selected_B0 := B0_widget_C (tabC self) in
  let selected_gyromagnetic := gyromagnetic_widget_C (tabC self) in
  if negb (selected_B0 == of_int 0)
  then gyro_lines_C 0 selected_gyromagnetic
  else if (selected_B0 == of_int 0)
          && negb (List.length selected_gyromagnetic =? 0)%nat
       then box_exec B0err
       else ret tt.

Definition finish_C : M St unit :=
  self <- get ;;
  x_axis_label <-
    lift (if radio2_C (tabC self)
          then py_index unit_label_f (unit_btngrp_C (tabC self))
          else py_index unit_label_t (unit_btngrp_C (tabC self))) ;;
  ax_set_xlabel x_axis_label ;;;
  ax_add (Text arxiv_text) ;;;
  canvas_draw ;;;
  set_plot_ready true.

Definition update_plot_C : M St unit :=
  ax_clear ;;;
  XY8 <- sim_C ;;
  expt_C XY8 ;;;
  markers_C ;;;
  finish_C.

End Program.

(** * Properties *)

(** ** What the methods leave alone *)

Section Frame.

Context {F : Type} `{Float64 F}.
Variable colors : list string.
Variable loadtxt : string -> exn + ndarray F.

Local Open Scope py_scope.

(** [s'] differs from [s] in the figure only. *)
Definition same_inputs (s s' : app F) : Prop :=
  data s' = data s /\ tabN s' = tabN s /\ tabC s' = tabC s.

Definition frame {A} (m : M (app F) A) : Prop :=
  forall s, same_inputs s (snd (m s)).

Lemma same_inputs_refl s : same_inputs s s.
Proof. repeat split. Qed.

Lemma same_inputs_trans s1 s2 s3 :
  same_inputs s1 s2 -> same_inputs s2 s3 -> same_inputs s1 s3.
Proof.
  intros (d1 & n1 & c1) (d2 & n2 & c2).
  repeat split; congruence.
Qed.

Lemma frame_ret A (a : A) : frame (ret a).
Proof. intros s. apply same_inputs_refl. Qed.

Lemma frame_lift A (r : exn + A) : frame (lift r).
Proof. intros s. apply same_inputs_refl. Qed.

Lemma frame_get : frame (@get (app F)).
Proof. intros s. apply same_inputs_refl. Qed.

Lemma frame_with_fig f : frame (modify (with_fig f)).
Proof. intros s. repeat split. Qed.

Lemma frame_bind A B (m : M (app F) A) (k : A -> M (app F) B) :
  frame m -> (forall a, frame (k a)) -> frame (bind m k).
Proof.
  intros Hm Hk s. unfold bind.
  specialize (Hm s). destruct (m s) as [[e | a] s1]; simpl in *.
  - exact Hm.
  - eapply same_inputs_trans; [exact Hm | apply Hk].
Qed.

Lemma frame_if A (b : bool) (m1 m2 : M (app F) A) :
  frame m1 -> frame m2 -> frame (if b then m1 else m2).
Proof. destruct b; auto. Qed.

Ltac frame_step :=
  first [ apply frame_bind; [ | intro ]
        | apply frame_if
        | apply frame_ret | apply frame_lift | apply frame_get
        | apply frame_with_fig ].

Lemma frame_ax_add a : frame (ax_add a).
Proof. apply frame_with_fig. Qed.

Lemma frame_sim_N : frame sim_N.
Proof.
  unfold sim_N. frame_step; [frame_step | ].
  destruct (read_where_N a); repeat frame_step.
Qed.

Lemma frame_expt_N XY8 : frame (expt_N loadtxt XY8).
Proof. unfold expt_N. repeat frame_step. Qed.

Lemma frame_gyro_lines_N vals : forall idx, frame (gyro_lines_N colors idx vals).
Proof.
  induction vals as [ | val rest IH]; intros idx; simpl.
  - apply frame_ret.
  - repeat frame_step. apply IH.
Qed.

Lemma frame_markers_N : frame (markers_N colors).
Proof.
  unfold markers_N. repeat frame_step. apply frame_gyro_lines_N.
Qed.

Lemma frame_finish_N : frame finish_N.
Proof. unfold finish_N. repeat frame_step. Qed.

Lemma frame_update_plot_N : frame (update_plot_N colors loadtxt).
Proof.
  unfold update_plot_N. frame_step; [apply frame_with_fig | ].
  frame_step; [apply frame_sim_N | ].
  frame_step; [apply frame_expt_N | ].
  frame_step; [apply frame_markers_N | apply frame_finish_N].
Qed.

Lemma frame_sim_C_loop fams : forall XY8, frame (sim_C_loop fams XY8).
Proof.
  induction fams as [ | fam rest IH]; intros XY8; simpl.
  - apply frame_ret.
  - frame_step; [frame_step | ].
    destruct (read_where_C a fam); repeat frame_step; apply IH.
Qed.

Lemma frame_sim_C : frame sim_C.
Proof. unfold sim_C. frame_step; [frame_step | apply frame_sim_C_loop]. Qed.

Lemma frame_expt_C XY8 : frame (expt_C loadtxt XY8).
Proof. unfold expt_C. repeat frame_step. Qed.

Lemma frame_gyro_lines_C vals : forall idx, frame (gyro_lines_C colors idx vals).
Proof.
  induction vals as [ | val rest IH]; intros idx; simpl.
  - apply frame_ret.
  - repeat frame_step. apply IH.
Qed.

Lemma frame_markers_C : frame (markers_C colors).
Proof.
  unfold markers_C. repeat frame_step. apply frame_gyro_lines_C.
Qed.

Lemma frame_finish_C : frame finish_C.
Proof. unfold finish_C. repeat frame_step. Qed.

Lemma frame_update_plot_C : frame (update_plot_C colors loadtxt).
Proof.
  unfold update_plot_C. frame_step; [apply frame_with_fig | ].
  frame_step; [apply frame_sim_C | ].
  frame_step; [apply frame_expt_C | ].
  frame_step; [apply frame_markers_C | apply frame_finish_C].
Qed.

End Frame.

(** ** The markers of the gyromagnetic ratios *)

Section Markers.

Context {F : Type} `{Float64 F}.
Variable colors : list string.

Local Open Scope f64_scope.
Local Open Scope py_scope.

(** The widgets of the two tabs that the marker code reads hold the same
    selection. *)
Definition same_marker_inputs (self : app F) : Prop :=
  B0_widget_N (tabN self) = B0_widget_C (tabC self)
  /\ gyromagnetic_widget_N (tabN self) = gyromagnetic_widget_C (tabC self)
  /\ unit_btngrp_N (tabN self) = unit_btngrp_C (tabC self)
  /\ radio2_N (tabN self) = radio2_C (tabC self).

Lemma gyro_lines_N_C vals :
  forall idx self,
    B0_widget_N (tabN self) = B0_widget_C (tabC self) ->
    unit_btngrp_N (tabN self) = unit_btngrp_C (tabC self) ->
    radio2_N (tabN self) = radio2_C (tabC self) ->
    gyro_lines_N colors idx vals self = gyro_lines_C colors idx vals self.
Proof.
  induction vals as [ | val rest IH]; intros idx self HB Hu Hr; simpl.
  - reflexivity.
  - unfold bind, get, lift. rewrite HB, Hu, Hr.
    destruct (dict_get (gyromagnetic_ratios (data self)) val) as [e | g];
      [reflexivity | ].
    destruct (py_index unit_list (unit_btngrp_C (tabC self))) as [e | u];
      [reflexivity | ].
    destruct (py_index (gyro_key_map val) 0) as [e | l0]; [reflexivity | ].
    destruct (py_index (gyro_key_map val) 1) as [e | l1]; [reflexivity | ].
    destruct (py_index colors (Z.of_nat idx + 1)) as [e | c]; [reflexivity | ].
    simpl. apply IH; assumption.
Qed.

(** C9: with the same field strength, selected labels, unit index and
    axis-domain choice in both tabs, the marker code of [update_plot_N] and
    that of [update_plot_C] do the same thing on every state: the same
    lines at the same positions, the same message box on a zero field, the
    same exception when one is raised. *)
Theorem markers_N_C_equivalent (self : app F) :
  same_marker_inputs self ->
  markers_N colors self = markers_C colors self.
Proof.
  intros (HB & Hg & Hu & Hr).
  unfold markers_N, markers_C, bind, get.
  rewrite HB, Hg.
  destruct (B0_widget_C (tabC self) == of_int 0); simpl.
  - reflexivity.
  - apply gyro_lines_N_C; assumption.
Qed.

End Markers.

(** ** Positions and domain conversion *)

Section Conversions.

Context {F : Type} `{Float64 F}.

Local Open Scope f64_scope.

(** The position of one marker: the two assignments to [pos] in the loop
    body of [update_plot_N] and of [update_plot_C]. *)
Definition marker_pos (g u selected_B0 : F) (radio2 : bool) : F :=
  let pos := of_int 1 / (of_int 2 * g / u * selected_B0 * lit_1em3) in
  if radio2 then of_int 1 / of_int 2 / pos else pos.

(** The spec's wording of the same position:
    [tau = 1 / (2 * (gamma / unit_multiplier) * field_strength_mT * 1e-3)],
    and [position = 1 / (2 * tau)] in the frequency domain. *)
Definition spec_tau (gamma unit_multiplier field_strength_mT : F) : F :=
  of_int 1 / (of_int 2 * (gamma / unit_multiplier) * field_strength_mT * lit_1em3).

Definition spec_position (frequency : bool)
           (gamma unit_multiplier field_strength_mT : F) : F :=
  let tau := spec_tau gamma unit_multiplier field_strength_mT in
  if frequency then of_int 1 / (of_int 2 * tau) else tau.

(** The expression [1 / 2 / x] by which [load_data] turns [self.tau] into
    [self.freq] and the marker loop turns [pos] into a frequency. *)
Definition time_to_freq (x : F) : F := of_int 1 / of_int 2 / x.

(** Modelled from the spec: [UnitConverter.freq_to_time], [tau = 1/(2*f)];
    the source never converts a frequency back to a time. *)
Definition freq_to_time (f : F) : F := of_int 1 / (of_int 2 * f).

Lemma load_freq_time_to_freq (tau : list F) :
  load_freq tau = map time_to_freq tau.
Proof. reflexivity. Qed.

Lemma marker_pos_time_to_freq g u b :
  marker_pos g u b true = time_to_freq (marker_pos g u b false).
Proof. reflexivity. Qed.

End Conversions.

(** ** Arithmetic of the exact instance *)

Module ExactFacts.

Lemma Qc_eqb_eq (a b : Qc) : Exact.Qc_eqb a b = true <-> a = b.
Proof.
  unfold Exact.Qc_eqb. rewrite Qeq_bool_iff. split.
  - apply Qc_is_canon.
  - intros ->. reflexivity.
Qed.

Lemma Qc_ltb_lt (a b : Qc) : Exact.Qc_ltb a b = true <-> (a < b)%Qc.
Proof.
  unfold Exact.Qc_ltb, Qclt. rewrite negb_true_iff.
  destruct (Qle_bool b a) eqn:E.
  - apply Qle_bool_iff in E. split; [discriminate | ].
    intros Hlt. exfalso. apply (Qlt_not_le _ _ Hlt E).
  - split; [intros _ | reflexivity].
    apply Qnot_le_lt. intros Hle. apply Qle_bool_iff in Hle. congruence.
Qed.

Lemma is_zero_false (q : Qc) : q <> 0%Qc -> Exact.is_zero q = false.
Proof.
  intros Hq. unfold Exact.is_zero.
  destruct (Exact.Qc_eqb q 0) eqn:E; [ | reflexivity].
  apply Qc_eqb_eq in E. contradiction.
Qed.

Lemma is_zero_true (q : Qc) : Exact.is_zero q = true -> q = 0%Qc.
Proof. apply Qc_eqb_eq. Qed.

(** [2 * g / m] and [2 * (g / m)] agree. *)
Lemma double_div (g : xq) (qm : Qc) :
  qm <> 0%Qc ->
  fdiv (fmul (of_int 2) g) (Fin qm) = fmul (of_int 2) (fdiv g (Fin qm)).
Proof.
  intros Hm. destruct g as [q | | | ]; simpl.
  - rewrite (is_zero_false Hm). f_equal. field. exact Hm.
  - rewrite (is_zero_false Hm). simpl. destruct (Exact.is_pos qm); reflexivity.
  - rewrite (is_zero_false Hm). simpl. destruct (Exact.is_pos qm); reflexivity.
  - reflexivity.
Qed.

(** [1 / 2 / p] and [1 / (2 * p)] agree, at zero and at the infinities
    too. *)
Lemma half_div (p : xq) : time_to_freq p = freq_to_time p.
Proof.
  unfold time_to_freq, freq_to_time.
  destruct p as [q | | | ]; try reflexivity.
  simpl. destruct (Exact.is_zero q) eqn:E.
  - apply is_zero_true in E. subst q. reflexivity.
  - assert (Hq : q <> 0%Qc).
    { intros ->. discriminate. }
    assert (H2 : (Q2Qc (inject_Z 2) * q)%Qc <> 0%Qc).
    { intros H0. apply Qcmult_integral in H0. destruct H0; [discriminate | auto]. }
    rewrite (is_zero_false H2). f_equal. field. split; [exact Hq | discriminate].
Qed.

End ExactFacts.

(** ** Running the marker loop *)

Section MarkerRun.

Context {F : Type} `{Float64 F}.
Variable colors : list string.

Local Open Scope py_scope.

(** [self] with [lines] drawn after what the axes already hold. *)
Definition add_artists (lines : list (artist F)) (self : app F) : app F :=
  with_fig (fun g =>
    {| ax := (ax g ++ lines)%list; xlabel := xlabel g; boxes := boxes g;
       draws := draws g; plot_ready := plot_ready g |}) self.

Lemma add_artists_nil self : add_artists [] self = self.
Proof.
  destruct self as [d n c [a x b dr p]]. unfold add_artists, with_fig. simpl.
  rewrite app_nil_r. reflexivity.
Qed.

Lemma add_artists_cons a lines self :
  add_artists lines (snd (ax_add a self)) = add_artists (a :: lines) self.
Proof.
  unfold add_artists, ax_add, modify, with_fig. simpl.
  rewrite <- app_assoc. reflexivity.
Qed.

Lemma add_artists_app l1 l2 self :
  add_artists l2 (add_artists l1 self) = add_artists (l1 ++ l2) self.
Proof.
  unfold add_artists, with_fig. simpl. rewrite <- app_assoc. reflexivity.
Qed.

Lemma py_index_nth A (l : list A) (i : Z) (a : A) :
  (0 <= i)%Z -> nth_error l (Z.to_nat i) = Some a -> py_index l i = inr a.
Proof.
  intros Hi Hn. unfold py_index.
  assert (Hlen : (Z.to_nat i < List.length l)%nat).
  { apply nth_error_Some. congruence. }
  assert (E1 : (i <? 0)%Z = false) by (apply Z.ltb_ge; lia).
  assert (E2 : (Z.of_nat (List.length l) <=? i)%Z = false)
    by (apply Z.leb_gt; lia).
  cbv zeta. rewrite E1. cbv iota. rewrite E1, E2, Hn. reflexivity.
Qed.

Lemma py_index_in_range A (l : list A) (i : Z) :
  (0 <= i < Z.of_nat (List.length l))%Z ->
  exists a, py_index l i = inr a.
Proof.
  intros Hi.
  destruct (nth_error l (Z.to_nat i)) as [a | ] eqn:E.
  - exists a. apply py_index_nth; [lia | exact E].
  - apply nth_error_None in E. lia.
Qed.

Lemma py_index_0 A (a : A) (l : list A) : py_index (a :: l) 0 = inr a.
Proof. apply py_index_nth; [lia | reflexivity]. Qed.

Lemma py_index_1 A (a b : A) (l : list A) : py_index (a :: b :: l) 1 = inr b.
Proof. apply py_index_nth; [lia | reflexivity]. Qed.

(** The label is in the dictionary and has the form [<sup>A</sup>X] that
    [load_data] gives every key. *)
Definition label_ok (ratios : list (string * F)) (val : string) : Prop :=
  (exists g, dict_get ratios val = inr g)
  /\ (exists l0 l1 rest, gyro_key_map val = l0 :: l1 :: rest).

(** [line] is the marker of [val], at the position [pos] computes from
    the ratio of [val]. *)
Definition marker_at (ratios : list (string * F)) (pos : F -> F)
           (val : string) (line : artist F) : Prop :=
  exists g l c, dict_get ratios val = inr g /\ line = VLine (pos g) l c.

Lemma gyro_lines_N_run vals :
  forall idx self u,
    py_index unit_list (unit_btngrp_N (tabN self)) = inr u ->
    Forall (label_ok (gyromagnetic_ratios (data self))) vals ->
    (idx + List.length vals < List.length colors)%nat ->
    exists lines,
      gyro_lines_N colors idx vals self = (inr tt, add_artists lines self)
      /\ Forall2 (marker_at (gyromagnetic_ratios (data self))
                    (fun g => marker_pos g u (B0_widget_N (tabN self))
                                         (radio2_N (tabN self))))
                 vals lines.
Proof.
  induction vals as [ | val rest IH]; intros idx self u Hu Hok Hlen.
  - exists []. simpl. rewrite add_artists_nil. split; [reflexivity | constructor].
  - inversion Hok as [ | ? ? [[g Hg] (l0 & l1 & tl & Hl)] Hrest]; subst.
    destruct (@py_index_in_range _ colors (Z.of_nat idx + 1)) as [c Hc].
    { simpl in Hlen. lia. }
    set (line := VLine (marker_pos g u (B0_widget_N (tabN self))
                                   (radio2_N (tabN self)))
                       ("$^{" ++ l0 ++ "}$" ++ l1) c).
    destruct (IH (S idx) (snd (ax_add line self)) u) as (lines & Hrun & Hall).
    + exact Hu.
    + exact Hrest.
    + simpl in Hlen. simpl. lia.
    + exists (line :: lines). split.
      * simpl gyro_lines_N. unfold bind at 1. unfold get at 1.
        unfold bind at 1. unfold lift at 1. rewrite Hg.
        unfold bind at 1. unfold lift at 1. rewrite Hu.
        unfold bind at 1. unfold lift at 1. rewrite Hl, py_index_0.
        unfold bind at 1. unfold lift at 1. rewrite py_index_1.
        unfold bind at 1. unfold lift at 1. rewrite Hc.
        unfold bind at 1.
        change (ax_add _ self) with (ax_add line self).
        change (ax_add line self) with (inr tt : exn + unit, snd (ax_add line self)).
        cbv iota beta. rewrite Hrun. rewrite add_artists_cons. reflexivity.
      * constructor; [ | exact Hall].
        exists g, ("$^{" ++ l0 ++ "}$" ++ l1), c. split; [exact Hg | reflexivity].
Qed.

Lemma gyro_lines_C_run vals :
  forall idx self u,
    py_index unit_list (unit_btngrp_C (tabC self)) = inr u ->
    Forall (label_ok (gyromagnetic_ratios (data self))) vals ->
    (idx + List.length vals < List.length colors)%nat ->
    exists lines,
      gyro_lines_C colors idx vals self = (inr tt, add_artists lines self)
      /\ Forall2 (marker_at (gyromagnetic_ratios (data self))
                    (fun g => marker_pos g u (B0_widget_C (tabC self))
                                         (radio2_C (tabC self))))
                 vals lines.
Proof.
  induction vals as [ | val rest IH]; intros idx self u Hu Hok Hlen.
  - exists []. simpl. rewrite add_artists_nil. split; [reflexivity | constructor].
  - inversion Hok as [ | ? ? [[g Hg] (l0 & l1 & tl & Hl)] Hrest]; subst.
    destruct (@py_index_in_range _ colors (Z.of_nat idx + 1)) as [c Hc].
    { simpl in Hlen. lia. }
    set (line := VLine (marker_pos g u (B0_widget_C (tabC self))
                                   (radio2_C (tabC self)))
                       ("$^{" ++ l0 ++ "}$" ++ l1) c).
    destruct (IH (S idx) (snd (ax_add line self)) u) as (lines & Hrun & Hall).
    + exact Hu.
    + exact Hrest.
    + simpl in Hlen. simpl. lia.
    + exists (line :: lines). split.
      * simpl gyro_lines_C. unfold bind at 1. unfold get at 1.
        unfold bind at 1. unfold lift at 1. rewrite Hg.
        unfold bind at 1. unfold lift at 1. rewrite Hu.
        unfold bind at 1. unfold lift at 1. rewrite Hl, py_index_0.
        unfold bind at 1. unfold lift at 1. rewrite py_index_1.
        unfold bind at 1. unfold lift at 1. rewrite Hc.
        unfold bind at 1.
        change (ax_add _ self) with (ax_add line self).
        change (ax_add line self) with (inr tt : exn + unit, snd (ax_add line self)).
        cbv iota beta. rewrite Hrun. rewrite add_artists_cons. reflexivity.
      * constructor; [ | exact Hall].
        exists g, ("$^{" ++ l0 ++ "}$" ++ l1), c. split; [exact Hg | reflexivity].
Qed.

Lemma markers_N_run self u :
  (feqb (B0_widget_N (tabN self)) (of_int 0)) = false ->
  py_index unit_list (unit_btngrp_N (tabN self)) = inr u ->
  Forall (label_ok (gyromagnetic_ratios (data self)))
         (gyromagnetic_widget_N (tabN self)) ->
  (List.length (gyromagnetic_widget_N (tabN self)) < List.length colors)%nat ->
  exists lines,
    markers_N colors self = (inr tt, add_artists lines self)
    /\ Forall2 (marker_at (gyromagnetic_ratios (data self))
                  (fun g => marker_pos g u (B0_widget_N (tabN self))
                                       (radio2_N (tabN self))))
               (gyromagnetic_widget_N (tabN self)) lines.
Proof.
  intros Hz Hu Hok Hlen.
  unfold markers_N, bind, get. rewrite Hz. simpl negb. cbv iota.
  apply gyro_lines_N_run; assumption.
Qed.

Lemma markers_C_run self u :
  (feqb (B0_widget_C (tabC self)) (of_int 0)) = false ->
  py_index unit_list (unit_btngrp_C (tabC self)) = inr u ->
  Forall (label_ok (gyromagnetic_ratios (data self)))
         (gyromagnetic_widget_C (tabC self)) ->
  (List.length (gyromagnetic_widget_C (tabC self)) < List.length colors)%nat ->
  exists lines,
    markers_C colors self = (inr tt, add_artists lines self)
    /\ Forall2 (marker_at (gyromagnetic_ratios (data self))
                  (fun g => marker_pos g u (B0_widget_C (tabC self))
                                       (radio2_C (tabC self))))
               (gyromagnetic_widget_C (tabC self)) lines.
Proof.
  intros Hz Hu Hok Hlen.
  unfold markers_C, bind, get. rewrite Hz. simpl negb. cbv iota.
  apply gyro_lines_C_run; assumption.
Qed.

Lemma py_index_In A (l : list A) (i : Z) (a : A) :
  py_index l i = inr a -> In a l.
Proof.
  unfold py_index. cbv zeta.
  destruct (_ || _); [discriminate | ].
  destruct (nth_error l _) as [b | ] eqn:E; [ | discriminate].
  intros [= <-]. eapply nth_error_In. exact E.
Qed.

Lemma marker_at_ext ratios (pos pos' : F -> F) vals lines :
  (forall g, pos g = pos' g) ->
  Forall2 (marker_at ratios pos) vals lines ->
  Forall2 (marker_at ratios pos') vals lines.
Proof.
  intros Hext Hall. induction Hall as [ | val line vals lines Hm _ IH].
  - constructor.
  - constructor; [ | exact IH].
    destruct Hm as (g & l & c & Hg & ->).
    exists g, l, c. split; [exact Hg | ]. rewrite Hext. reflexivity.
Qed.

End MarkerRun.

(** ** C1: the marker positions are those of the spec *)

Module MarkerPositions.

Import ExactFacts.

(** The four multipliers are finite and not zero. *)
Lemma unit_list_exact :
  unit_list (F := xq)
  = [Fin (Q2Qc 1000); Fin (Q2Qc 1); Fin (Q2Qc (1 # 1000)); Fin (Q2Qc (1 # 1000000))].
Proof.
  unfold unit_list, lit_1e3, lit_1em3, lit_1em6. simpl.
  repeat (f_equal; try (apply Qc_is_canon; reflexivity)).
Qed.

Lemma unit_list_nonzero (m : xq) :
  In m (unit_list (F := xq)) -> exists qm, m = Fin qm /\ qm <> 0%Qc.
Proof.
  rewrite unit_list_exact. simpl.
  intros [<- | [<- | [<- | [<- | []]]]]; eexists; (split; [reflexivity | discriminate]).
Qed.

Lemma marker_pos_spec (g m b : xq) (radio2 : bool) :
  In m (unit_list (F := xq)) ->
  marker_pos g m b radio2 = spec_position radio2 g m b.
Proof.
  intros Hm. destruct (unit_list_nonzero Hm) as (qm & -> & Hq).
  unfold marker_pos, spec_position, spec_tau. cbv zeta.
  rewrite (double_div g Hq).
  destruct radio2; [ | reflexivity].
  apply (half_div _).
Qed.

End MarkerPositions.

(** C1: in exact arithmetic, with a field that is not zero, a unit index
    that selects the multiplier [m] of [1e3, 1, 1e-3, 1e-6], and selected
    labels that can be drawn (present in the table, of the form
    [<sup>A</sup>X], fewer than the colours), the marker code of either
    method returns normally and draws, in selection order, one line per label
    at [1 / (2 * (gamma / m) * B0 * 1e-3)], or at [1 / (2 * tau)] of that
    value when the frequency domain is selected. *)
Theorem marker_positions_follow_spec (colors : list string) (self : app xq) :
  (forall m : xq,
     feqb (B0_widget_N (tabN self)) (of_int 0) = false ->
     py_index unit_list (unit_btngrp_N (tabN self)) = inr m ->
     Forall (label_ok (gyromagnetic_ratios (data self)))
            (gyromagnetic_widget_N (tabN self)) ->
     (List.length (gyromagnetic_widget_N (tabN self)) < List.length colors)%nat ->
     exists lines,
       markers_N colors self = (inr tt, add_artists lines self)
       /\ Forall2 (marker_at (gyromagnetic_ratios (data self))
                     (fun gamma => spec_position (radio2_N (tabN self)) gamma m
                                                 (B0_widget_N (tabN self))))
                  (gyromagnetic_widget_N (tabN self)) lines)
  /\ (forall m : xq,
        feqb (B0_widget_C (tabC self)) (of_int 0) = false ->
        py_index unit_list (unit_btngrp_C (tabC self)) = inr m ->
        Forall (label_ok (gyromagnetic_ratios (data self)))
               (gyromagnetic_widget_C (tabC self)) ->
        (List.length (gyromagnetic_widget_C (tabC self)) < List.length colors)%nat ->
        exists lines,
          markers_C colors self = (inr tt, add_artists lines self)
          /\ Forall2 (marker_at (gyromagnetic_ratios (data self))
                        (fun gamma => spec_position (radio2_C (tabC self)) gamma m
                                                    (B0_widget_C (tabC self))))
                     (gyromagnetic_widget_C (tabC self)) lines)
  /\ unit_list (F := xq)
     = [Fin (Q2Qc 1000); Fin (Q2Qc 1); Fin (Q2Qc (1 # 1000));
        Fin (Q2Qc (1 # 1000000))].
Proof.
  split; [ | split; [ | exact MarkerPositions.unit_list_exact]];
    intros m Hz Hu Hok Hlen.
  - destruct (markers_N_run colors self Hz Hu Hok Hlen) as (lines & Hrun & Hall).
    exists lines. split; [exact Hrun | ].
    eapply marker_at_ext; [ | exact Hall].
    intros g. apply MarkerPositions.marker_pos_spec.
    eapply py_index_In. exact Hu.
  - destruct (markers_C_run colors self Hz Hu Hok Hlen) as (lines & Hrun & Hall).
    exists lines. split; [exact Hrun | ].
    eapply marker_at_ext; [ | exact Hall].
    intros g. apply MarkerPositions.marker_pos_spec.
    eapply py_index_In. exact Hu.
Qed.

(** On binary64, for the ratio 42.577 MHz/T of 1H at 5 mT: the code's
    positions for the four units, both domains, are those of the spec's
    formula bit for bit; in microseconds the marker stands at
    2.3486859102332245. *)
Lemma marker_pos_binary64_sample :
  map (fun u => marker_pos (fdiv (of_int 42577) (of_int 1000)) u (of_int 5) false)
      (unit_list (F := float))
  = [0x1.2595f2fa04762p+11; 0x1.2ca1bd6a838b6p+1;
     0x1.33d8d2589715fp-9; 0x1.3b3c3bbf117eep-19]%float
  /\ map (fun u => marker_pos (fdiv (of_int 42577) (of_int 1000)) u (of_int 5) true)
         (unit_list (F := float))
     = [0x1.be73c39c21893p-13; 0x1.b3fd0d0678cp-3;
        0x1.a9c51eb851eb7p+7; 0x1.9fca8p+17]%float
  /\ forallb (fun u =>
                forallb (fun r =>
                           feqb (marker_pos (fdiv (of_int 42577) (of_int 1000))
                                            u (of_int 5) r)
                                (spec_position r (fdiv (of_int 42577) (of_int 1000))
                                               u (of_int 5)))
                        [false; true])
             (unit_list (F := float))
     = true.
Proof. repeat split. Qed.

(** ** C8: the round trip between the two domains *)

(** C8, as amended: in exact arithmetic, for every [f > 0] (the infinite one
    included), turning [f] into a time and that time back into a frequency
    gives [f] again. *)
Theorem round_trip_exact (f : xq) :
  fltb (of_int 0) f = true ->
  time_to_freq (freq_to_time f) = f.
Proof.
  intros Hpos. rewrite ExactFacts.half_div.
  destruct f as [q | | | ]; try discriminate; [ | reflexivity].
  assert (Hq : q <> 0%Qc).
  { intros Heq. subst q. discriminate Hpos. }
  assert (H2 : (Q2Qc (inject_Z 2) * q)%Qc <> 0%Qc).
  { intros H0. apply Qcmult_integral in H0. destruct H0; [discriminate | auto]. }
  unfold freq_to_time. simpl.
  rewrite (ExactFacts.is_zero_false H2). simpl.
  assert (H3 : (Q2Qc (inject_Z 2) * (Q2Qc (inject_Z 1) / (Q2Qc (inject_Z 2) * q)))%Qc
               <> 0%Qc).
  { intros H0.
    assert (H1 : ((Q2Qc (inject_Z 2) * (Q2Qc (inject_Z 1) / (Q2Qc (inject_Z 2) * q))) * q
                  = Q2Qc (inject_Z 1))%Qc).
    { field. split; [exact Hq | discriminate]. }
    rewrite H0 in H1. rewrite Qcmult_0_l in H1. discriminate. }
  rewrite (ExactFacts.is_zero_false H3). f_equal. field.
  repeat split; [exact Hq | discriminate | discriminate].
Qed.

(** The same round trip on binary64, at 49.0: Python's
    [1 / 2 / (1 / (2 * 49.0)) == 49.0] is [False]
    (the left side is 49.00000000000001); and of the 1000 values of the
    canonical axis, taken as [f], 114 do not come back either. *)
Lemma round_trip_binary64_fails :
  fltb (of_int 0) (of_int 49 : float) = true
  /\ feqb (time_to_freq (freq_to_time (of_int 49 : float))) (of_int 49) = false
  /\ time_to_freq (freq_to_time (of_int 49 : float)) = 0x1.8800000000001p+5%float
  /\ List.length
       (filter (fun f => negb (feqb (time_to_freq (freq_to_time f)) f))
               (load_tau (F := float))) = 114%nat.
Proof.
  split; [reflexivity | ].
  split; [reflexivity | ].
  split; [reflexivity | ].
  vm_compute. reflexivity.
Qed.

Lemma round_trip_exact_witness :
  time_to_freq (freq_to_time (of_int 49 : xq)) = of_int 49.
Proof. apply (round_trip_exact (of_int 49)). reflexivity. Defined.

(** ** Sample requests *)

Module Sample.

Section Generic.

Context {F : Type} `{Float64 F}.

Local Open Scope f64_scope.

(** Matplotlib's default colour cycle. *)
Definition colors : list string :=
  ["#1f77b4"; "#ff7f0e"; "#2ca02c"; "#d62728"; "#9467bd";
   "#8c564b"; "#e377c2"; "#7f7f7f"; "#bcbd22"; "#17becf"].

Definition half : F := of_int 1 / of_int 2.
Definition quarter : F := of_int 1 / of_int 4.

(** Probability series of the canonical length, with maxima 1, 1/2
    and 1/2. *)
Definition curve_A : list F := half :: of_int 1 :: repeat quarter 998.
Definition curve_B : list F := repeat half 1000.
Definition curve_A7 : list F := quarter :: half :: repeat quarter 998.

(** A dataset with one 15N row and the families A and B of 13C at 5 mT,
    and family A alone at 7 mT; the ratios of 1H and 13C in MHz/T. *)
Definition h5 : h5file (F := F) :=
  {| n15_table := [mkN15 (-1) 8 (of_int 5) (of_int 0) curve_A];
     c13_table := [mkC13 (-1) 8 (of_int 5) "A" curve_A;
                   mkC13 (-1) 8 (of_int 5) "B" curve_B;
                   mkC13 (-1) 8 (of_int 7) "A" curve_A7];
     gyro_table := [("H-1", of_int 42577 / of_int 1000);
                    ("C-13", of_int 107084 / of_int 10000)] |}.

Definition no_data : dataset F :=
  {| N15_table := []; C13_table := []; tau := []; freq := [];
     gyromagnetic_ratios := [] |}.

Definition loaded : dataset F :=
  match load_data h5 with
  | inr d => d
  | inl _ => no_data
  end.

(** Three overlay files: a usable one, one whose second column is
    constant, and one that [np.loadtxt] rejects. *)
Definition loadtxt (path : string) : exn + ndarray F :=
  if String.eqb path "expt.txt"
  then inr (Arr2 [[of_int 0; of_int 1]; [of_int 1; of_int 3]; [of_int 2; of_int 2]])
  else if String.eqb path "flat.txt"
  then inr (Arr2 [[of_int 0; of_int 1]; [of_int 1; of_int 1]])
  else inl LoadError.

Definition blank : figure F :=
  {| ax := []; xlabel := ""; boxes := []; draws := 0; plot_ready := false |}.

(** Both tabs on [B0] mT, microseconds, time domain, 1H and 13C selected,
    families A and B, the overlay enabled on [path]. *)
Definition request (B0 : F) (path : string) : app F :=
  {| data := loaded;
     tabN := {| ms_widget_N := -1; M_widget_N := 8; B0_widget_N := B0;
                theta_widget_N := of_int 0;
                gyromagnetic_widget_N := ["<sup>1</sup>H"; "<sup>13</sup>C"];
                unit_btngrp_N := 1; radio2_N := false;
                expt_chkbox_N := true; expt_filename_N := path |};
     tabC := {| ms_widget_C := -1; M_widget_C := 8; B0_widget_C := B0;
                families_widget := ["A"; "B"];
                gyromagnetic_widget_C := ["<sup>1</sup>H"; "<sup>13</sup>C"];
                unit_btngrp_C := 1; radio2_C := false;
                expt_chkbox_C := true; expt_filename_C := path |};
     fig := blank |}.

End Generic.

End Sample.

Lemma markers_N_C_equivalent_witness :
  markers_N Sample.colors (Sample.request (of_int 5 : float) "expt.txt")
  = markers_C Sample.colors (Sample.request (of_int 5 : float) "expt.txt").
Proof.
  apply (@markers_N_C_equivalent float binary64 Sample.colors
           (Sample.request (of_int 5 : float) "expt.txt")).
  repeat split.
Defined.

Lemma marker_positions_follow_spec_witness :
  exists lines,
    markers_N Sample.colors (Sample.request (of_int 5 : xq) "expt.txt")
    = (inr tt, add_artists lines (Sample.request (of_int 5 : xq) "expt.txt"))
    /\ Forall2 (marker_at (gyromagnetic_ratios (Sample.loaded (F := xq)))
                  (fun gamma => spec_position false gamma (of_int 1) (of_int 5)))
               ["<sup>1</sup>H"; "<sup>13</sup>C"] lines.
Proof.
  apply (proj1 (@marker_positions_follow_spec Sample.colors
                  (Sample.request (of_int 5 : xq) "expt.txt")) (of_int 1)).
  - reflexivity.
  - reflexivity.
  - repeat constructor; try (eexists; reflexivity).
    + exists "1", "H", []. reflexivity.
    + exists "13", "C", []. reflexivity.
  - simpl. lia.
Defined.

(** ** The simulated curves *)

Section Curves.

Context {F : Type} `{Float64 F}.

Local Open Scope f64_scope.
Local Open Scope py_scope.

(** The x values of a simulated curve: the conditional expression bound to
    [x_axis] in both methods. *)
Definition x_axis_of (radio2 : bool) (u : F) (d : dataset F) : list F :=
  if radio2 then map (fun f => f / u) (freq d) else map (fun t => t * u) (tau d).

(** What one family contributes to the axes, and the value its iteration
    leaves in [XY8]. *)
Definition family_artist (self : app F) (u : F) (fam : string) : artist F :=
  match read_where_C self fam with
  | [] => Text no_data_text
  | r :: _ => Line (x_axis_of (radio2_C (tabC self)) u (data self)) (c_data r) fam
  end.

Definition family_XY8 (self : app F) (fam : string) : local F (c13_row F) :=
  match read_where_C self fam with
  | [] => Rows []
  | r :: _ => Data (c_data r)
  end.

(** The spec's reference curve: the first family of the selection that has
    a row. *)
Fixpoint first_found_curve (self : app F) (selected_fam : list string)
  : option (list F) :=
  match selected_fam with
  | [] => None
  | fam :: rest =>
      match read_where_C self fam with
      | r :: _ => Some (c_data r)
      | [] => first_found_curve self rest
      end
  end.

Lemma last_cons A (a d : A) (l : list A) : last (a :: l) d = last l a.
Proof.
  revert a d. induction l as [ | b l IH]; intros a d.
  - reflexivity.
  - change (last (a :: b :: l) d) with (last (b :: l) d).
    rewrite !IH. reflexivity.
Qed.

Lemma read_where_C_add lines self fam :
  read_where_C (add_artists lines self) fam = read_where_C self fam.
Proof. reflexivity. Qed.

Lemma sim_C_loop_run selected_fam :
  forall XY8 self u,
    py_index unit_list (unit_btngrp_C (tabC self)) = inr u ->
    sim_C_loop selected_fam XY8 self
    = (inr (last (map (family_XY8 self) selected_fam) XY8),
       add_artists (map (family_artist self u) selected_fam) self).
Proof.
  induction selected_fam as [ | fam rest IH]; intros XY8 self u Hu.
  - simpl. rewrite add_artists_nil. reflexivity.
  - simpl sim_C_loop. unfold bind at 1. unfold get at 1.
    rewrite map_cons, last_cons.
    change (map (family_artist self u) (fam :: rest))
      with (family_artist self u fam :: map (family_artist self u) rest).
    unfold family_XY8 at 2. unfold family_artist at 1.
    destruct (read_where_C self fam) as [ | r rs] eqn:E.
    + unfold bind at 1.
      change (ax_add (Text no_data_text) self)
        with (inr tt : exn + unit, snd (ax_add (Text no_data_text) self)).
      cbv iota beta.
      rewrite (IH _ _ u) by exact Hu.
      rewrite <- add_artists_cons. reflexivity.
    + unfold bind at 1. unfold lift at 1. rewrite Hu.
      unfold bind at 1.
      set (line := Line _ (c_data r) fam).
      change (ax_add line self) with (inr tt : exn + unit, snd (ax_add line self)).
      cbv iota beta.
      rewrite (IH _ _ u) by exact Hu.
      rewrite <- add_artists_cons. reflexivity.
Qed.

Lemma sim_C_run self u :
  py_index unit_list (unit_btngrp_C (tabC self)) = inr u ->
  sim_C self
  = (inr (last (map (family_XY8 self) (families_widget (tabC self))) Unbound),
     add_artists (map (family_artist self u) (families_widget (tabC self))) self).
Proof.
  intros Hu. unfold sim_C, bind, get. apply sim_C_loop_run. exact Hu.
Qed.

Lemma sim_N_found self u r rest :
  py_index unit_list (unit_btngrp_N (tabN self)) = inr u ->
  read_where_N self = r :: rest ->
  sim_N self
  = (inr (Data (n_data r)),
     add_artists [Line (x_axis_of (radio2_N (tabN self)) u (data self))
                       (n_data r) "Sim"] self).
Proof.
  intros Hu Hr. unfold sim_N, bind, get, lift. rewrite Hr, Hu. reflexivity.
Qed.

Lemma sim_N_not_found self :
  read_where_N self = [] ->
  sim_N self = (inr (Rows []), add_artists [Text no_data_text] self).
Proof.
  intros Hr. unfold sim_N, bind, get. rewrite Hr. reflexivity.
Qed.

(** C6: with a valid unit index, the loop over the selected families never
    raises and draws one artist per family, in selection order: the family's
    curve under its own label when a row matches, the "not available"
    placeholder when none does.  For the selection A, B with a row for A
    only: exactly the curve labelled A, then one placeholder. *)
Theorem families_looked_up_independently (self : app F) (u : F) :
  py_index unit_list (unit_btngrp_C (tabC self)) = inr u ->
  (exists XY8,
     sim_C self
     = (inr XY8,
        add_artists (map (family_artist self u) (families_widget (tabC self)))
                    self))
  /\ (forall A B rA rest,
        families_widget (tabC self) = [A; B] ->
        read_where_C self A = rA :: rest ->
        read_where_C self B = [] ->
        ax (fig (snd (sim_C self)))
        = (ax (fig self)
           ++ [Line (x_axis_of (radio2_C (tabC self)) u (data self)) (c_data rA) A;
               Text no_data_text])%list).
Proof.
  intros Hu. split.
  - eexists. apply sim_C_run. exact Hu.
  - intros A B rA rest Hsel HA HB.
    rewrite (sim_C_run self Hu), Hsel. simpl.
    unfold family_artist. rewrite HA, HB. reflexivity.
Qed.

End Curves.

Lemma families_looked_up_independently_witness :
  ax (fig (snd (sim_C (Sample.request (of_int 7 : float) "expt.txt"))))
  = [Line (x_axis_of false (of_int 1) (Sample.loaded (F := float)))
          Sample.curve_A7 "A";
     Text no_data_text].
Proof.
  apply (proj2 (@families_looked_up_independently float binary64
                  (Sample.request (of_int 7 : float) "expt.txt") (of_int 1)
                  eq_refl)
               "A" "B"
               (mkC13 (-1) 8 (of_int 7) "A" Sample.curve_A7)
               []).
  - reflexivity.
  - vm_compute. reflexivity.
  - vm_compute. reflexivity.
Defined.

(** ** The experimental overlay *)

Section Overlay.

Context {F : Type} `{Float64 F}.
Variable colors : list string.
Variable loadtxt : string -> exn + ndarray F.

Local Open Scope f64_scope.
Local Open Scope py_scope.

(** A curve or a placeholder: what the simulation stage draws. *)
Definition sim_artist (a : artist F) : Prop :=
  match a with
  | Line _ _ _ | Text _ => True
  | Scatter _ _ _ | VLine _ _ _ => False
  end.

(** The y values that the overlay code draws for the column [y] against
    the reference maximum [top]: [p * np.max(XY8) / np.max(p)] with
    [p = y - min(y)]. *)
Definition rescaled (y : list F) (m top ptop : F) : list F :=
  map (fun v => v * top / ptop) (map (fun v => v - m) y).

Definition overlay_on_N (self : app F) : Prop :=
  expt_chkbox_N (tabN self) = true /\ expt_filename_N (tabN self) <> "".

Definition overlay_on_C (self : app F) : Prop :=
  expt_chkbox_C (tabC self) = true /\ expt_filename_C (tabC self) <> "".

(** The same request with the overlay check box cleared. *)
Definition overlay_off (self : app F) : app F :=
  {| data := data self;
     tabN := let w := tabN self in
             {| ms_widget_N := ms_widget_N w; M_widget_N := M_widget_N w;
                B0_widget_N := B0_widget_N w; theta_widget_N := theta_widget_N w;
                gyromagnetic_widget_N := gyromagnetic_widget_N w;
                unit_btngrp_N := unit_btngrp_N w; radio2_N := radio2_N w;
                expt_chkbox_N := false; expt_filename_N := expt_filename_N w |};
     tabC := let w := tabC self in
             {| ms_widget_C := ms_widget_C w; M_widget_C := M_widget_C w;
                B0_widget_C := B0_widget_C w;
                families_widget := families_widget w;
                gyromagnetic_widget_C := gyromagnetic_widget_C w;
                unit_btngrp_C := unit_btngrp_C w; radio2_C := radio2_C w;
                expt_chkbox_C := false; expt_filename_C := expt_filename_C w |};
     fig := fig self |}.

Lemma overlay_test_N self :
  overlay_on_N self ->
  expt_chkbox_N (tabN self) && negb (String.eqb (expt_filename_N (tabN self)) "")
  = true.
Proof.
  intros [Hc Hf]. rewrite Hc. simpl.
  apply negb_true_iff. apply String.eqb_neq. exact Hf.
Qed.

Lemma overlay_test_C self :
  overlay_on_C self ->
  expt_chkbox_C (tabC self) && negb (String.eqb (expt_filename_C (tabC self)) "")
  = true.
Proof.
  intros [Hc Hf]. rewrite Hc. simpl.
  apply negb_true_iff. apply String.eqb_neq. exact Hf.
Qed.

Lemma expt_N_load_fails self XY8 e :
  overlay_on_N self ->
  loadtxt (expt_filename_N (tabN self)) = inl e ->
  expt_N loadtxt XY8 self = (inl e, self).
Proof.
  intros Hon Hload. unfold expt_N, bind, get, lift.
  rewrite (overlay_test_N Hon), Hload. reflexivity.
Qed.

Lemma expt_C_load_fails self XY8 e :
  overlay_on_C self ->
  loadtxt (expt_filename_C (tabC self)) = inl e ->
  expt_C loadtxt XY8 self = (inl e, self).
Proof.
  intros Hon Hload. unfold expt_C, bind, get, lift.
  rewrite (overlay_test_C Hon), Hload. reflexivity.
Qed.

Lemma expt_N_run self (d : list F) exp_data x y m top ptop :
  overlay_on_N self ->
  loadtxt (expt_filename_N (tabN self)) = inr exp_data ->
  column 1 exp_data = inr y ->
  py_min y = inr m ->
  column 0 exp_data = inr x ->
  np_max d = inr top ->
  np_max (map (fun v => v - m) y) = inr ptop ->
  expt_N loadtxt (Data d) self
  = (inr tt, add_artists [Scatter x (rescaled y m top ptop) "Exp"] self).
Proof.
  intros Hon Hload Hy Hm Hx Ht Hp. unfold expt_N, bind, get, lift.
  rewrite (overlay_test_N Hon), Hload, Hy, Hm, Hx.
  unfold np_max_local. rewrite Ht, Hp. reflexivity.
Qed.

Lemma expt_C_run self (d : list F) exp_data x y m top ptop :
  overlay_on_C self ->
  loadtxt (expt_filename_C (tabC self)) = inr exp_data ->
  column 1 exp_data = inr y ->
  py_min y = inr m ->
  column 0 exp_data = inr x ->
  np_max d = inr top ->
  np_max (map (fun v => v - m) y) = inr ptop ->
  expt_C loadtxt (Data d) self
  = (inr tt, add_artists [Scatter x (rescaled y m top ptop) "Exp"] self).
Proof.
  intros Hon Hload Hy Hm Hx Ht Hp. unfold expt_C, bind, get, lift.
  rewrite (overlay_test_C Hon), Hload, Hy, Hm, Hx.
  unfold np_max_local. rewrite Ht, Hp. reflexivity.
Qed.

Lemma sim_artist_family self u fams :
  Forall sim_artist (map (family_artist self u) fams).
Proof.
  induction fams as [ | fam rest IH]; simpl; constructor; [ | exact IH].
  unfold family_artist. destruct (read_where_C self fam); exact I.
Qed.

(** The state in which [update_plot_N] and [update_plot_C] start, after
    [self.ax.clear()]. *)
Definition cleared (self : app F) : app F := snd (ax_clear self).

Lemma update_plot_N_unfold self :
  update_plot_N colors loadtxt self
  = match sim_N (cleared self) with
    | (inl e, s) => (inl e, s)
    | (inr XY8, s) =>
        match expt_N loadtxt XY8 s with
        | (inl e, s') => (inl e, s')
        | (inr _, s') =>
            match markers_N colors s' with
            | (inl e, s'') => (inl e, s'')
            | (inr _, s'') => finish_N s''
            end
        end
    end.
Proof. reflexivity. Qed.

Lemma update_plot_C_unfold self :
  update_plot_C colors loadtxt self
  = match sim_C (cleared self) with
    | (inl e, s) => (inl e, s)
    | (inr XY8, s) =>
        match expt_C loadtxt XY8 s with
        | (inl e, s') => (inl e, s')
        | (inr _, s') =>
            match markers_C colors s' with
            | (inl e, s'') => (inl e, s'')
            | (inr _, s'') => finish_C s''
            end
        end
    end.
Proof. reflexivity. Qed.

End Overlay.

(** ** Minimum and maximum of finite lists in the exact instance *)

Module ExactLists.

Import ExactFacts.

Local Open Scope Qc_scope.

(** [min] and [np.max] on finite values, read on the rationals. *)
Definition qmin (q0 : Qc) (qr : list Qc) : Qc :=
  fold_left (fun m q => if Exact.Qc_ltb q m then q else m) qr q0.

Definition qmax (q0 : Qc) (qr : list Qc) : Qc :=
  fold_left (fun m q => if Exact.Qc_ltb q m || Exact.Qc_eqb m q then m else q) qr q0.

Lemma Qc_eqb_refl (a : Qc) : Exact.Qc_eqb a a = true.
Proof. apply Qc_eqb_eq. reflexivity. Qed.

Lemma Qc_ltb_ge (a b : Qc) : Exact.Qc_ltb a b = false -> b <= a.
Proof.
  intros E. apply Qcnot_lt_le. intros Hlt.
  apply Qc_ltb_lt in Hlt. congruence.
Qed.

Lemma py_min_fin (q0 : Qc) (qr : list Qc) :
  py_min (map Fin (q0 :: qr)) = inr (Fin (qmin q0 qr)).
Proof.
  unfold py_min, qmin. simpl map. f_equal.
  revert q0. induction qr as [ | a qr IH]; intros q0; simpl.
  - reflexivity.
  - destruct (Exact.Qc_ltb a q0); apply IH.
Qed.

Lemma np_max_fin (q0 : Qc) (qr : list Qc) :
  np_max (map Fin (q0 :: qr)) = inr (Fin (qmax q0 qr)).
Proof.
  unfold np_max, qmax. simpl map. f_equal.
  revert q0. induction qr as [ | a qr IH]; intros q0; simpl.
  - reflexivity.
  - unfold np_maximum, isnan. simpl. rewrite Qc_eqb_refl. simpl.
    rewrite orb_false_r.
    destruct (Exact.Qc_ltb a q0 || Exact.Qc_eqb q0 a); apply IH.
Qed.

Lemma qmin_spec (qr : list Qc) :
  forall q0, In (qmin q0 qr) (q0 :: qr)
             /\ forall q, In q (q0 :: qr) -> qmin q0 qr <= q.
Proof.
  induction qr as [ | a qr IH]; intros q0.
  - split; [left; reflexivity | ].
    intros q [<- | []]. apply Qcle_refl.
  - unfold qmin. simpl fold_left.
    destruct (Exact.Qc_ltb a q0) eqn:E.
    + destruct (IH a) as [Hin Hle]. fold (qmin a qr). split.
      * right. exact Hin.
      * intros q [<- | Hq].
        -- apply Qcle_trans with a; [apply Hle; left; reflexivity | ].
           apply Qclt_le_weak. apply Qc_ltb_lt. exact E.
        -- apply Hle. exact Hq.
    + destruct (IH q0) as [Hin Hle]. fold (qmin q0 qr). split.
      * destruct Hin as [Hin | Hin]; [left; exact Hin | right; right; exact Hin].
      * intros q [<- | [<- | Hq]].
        -- apply Hle. left. reflexivity.
        -- apply Qcle_trans with q0; [apply Hle; left; reflexivity | ].
           apply Qc_ltb_ge. exact E.
        -- apply Hle. right. exact Hq.
Qed.

Lemma qmax_spec (qr : list Qc) :
  forall q0, In (qmax q0 qr) (q0 :: qr)
             /\ forall q, In q (q0 :: qr) -> q <= qmax q0 qr.
Proof.
  induction qr as [ | a qr IH]; intros q0.
  - split; [left; reflexivity | ].
    intros q [<- | []]. apply Qcle_refl.
  - unfold qmax. simpl fold_left.
    destruct (Exact.Qc_ltb a q0 || Exact.Qc_eqb q0 a) eqn:E.
    + destruct (IH q0) as [Hin Hle]. fold (qmax q0 qr). split.
      * destruct Hin as [Hin | Hin]; [left; exact Hin | right; right; exact Hin].
      * intros q [<- | [<- | Hq]].
        -- apply Hle. left. reflexivity.
        -- apply Qcle_trans with q0; [ | apply Hle; left; reflexivity].
           apply orb_true_iff in E. destruct E as [E | E].
           ++ apply Qclt_le_weak. apply Qc_ltb_lt. exact E.
           ++ apply Qc_eqb_eq in E. subst. apply Qcle_refl.
        -- apply Hle. right. exact Hq.
    + destruct (IH a) as [Hin Hle]. fold (qmax a qr). split.
      * right. exact Hin.
      * intros q [<- | Hq].
        -- apply Qcle_trans with a; [ | apply Hle; left; reflexivity].
           apply orb_false_iff in E. destruct E as [E _].
           apply Qc_ltb_ge in E. exact E.
        -- apply Hle. exact Hq.
Qed.

End ExactLists.

(** ** C4: the range of the rescaled overlay, in exact arithmetic *)

Module ExactOverlay.

Import ExactFacts ExactLists.

Local Open Scope Qc_scope.

(** the y value drawn for [q]: [(q - m) * (M / P)] *)
Definition scaled (m M P q : Qc) : Qc := (q - m) * (M / P).

Lemma sub_le_0 (a m : Qc) : a - m <= 0 -> a <= m.
Proof.
  intros Hle. apply Qcle_minus_iff.
  apply Qcle_minus_iff in Hle.
  replace (m + - a) with (0 + - (a - m)) by ring. exact Hle.
Qed.

Lemma sub_nonneg (a m : Qc) : m <= a -> 0 <= a - m.
Proof. intros Hle. apply Qcle_minus_iff in Hle. exact Hle. Qed.

Lemma div_nonneg (M P : Qc) : 0 <= M -> 0 < P -> 0 <= M / P.
Proof.
  intros HM HP. apply Qcnot_lt_le. intros Hneg.
  apply (Qcmult_lt_compat_r _ _ P HP) in Hneg.
  rewrite Qcmult_0_l in Hneg.
  rewrite Qcmult_comm, Qcmult_div_r in Hneg.
  - exact (Qcle_not_lt _ _ HM Hneg).
  - intros ->. exact (Qclt_not_eq _ _ HP eq_refl).
Qed.

Lemma fsub_fin (m : Qc) (qs : list Qc) :
  map (fun v => fsub v (Fin m)) (map Fin qs) = map Fin (map (fun q => q - m) qs).
Proof. rewrite !map_map. reflexivity. Qed.

Lemma rescaled_fin (m M P : Qc) (qs : list Qc) :
  P <> 0 ->
  rescaled (map Fin qs) (Fin m) (Fin M) (Fin P) = map Fin (map (scaled m M P) qs).
Proof.
  intros HP. unfold rescaled. rewrite !map_map. apply map_ext. intros q.
  simpl. rewrite (is_zero_false HP). f_equal. unfold scaled. field. exact HP.
Qed.

(** The column [qs] is not constant and the reference [rs] is a non-empty
    list of non-negative values: then the drawn values are
    [(q - m) * (M / P)] for the minimum [m] of the column, the maximum [M]
    of the reference and the maximum [P] of the baseline-corrected column,
    their minimum is 0 and their maximum is [M]. *)
Lemma rescaled_exact (qs rs : list Qc) :
  (exists a b, In a qs /\ In b qs /\ a <> b) ->
  rs <> [] ->
  Forall (fun r => 0 <= r) rs ->
  exists m M P : Qc,
    py_min (map Fin qs) = inr (Fin m)
    /\ np_max (map Fin rs) = inr (Fin M)
    /\ np_max (map (fun v => fsub v (Fin m)) (map Fin qs)) = inr (Fin P)
    /\ P <> 0
    /\ rescaled (map Fin qs) (Fin m) (Fin M) (Fin P)
       = map Fin (map (scaled m M P) qs)
    /\ py_min (map Fin (map (scaled m M P) qs)) = inr (Fin 0)
    /\ np_max (map Fin (map (scaled m M P) qs)) = inr (Fin M).
Proof.
  intros (a & b & Ha & Hb & Hab) Hrs Hnonneg.
  destruct qs as [ | q0 qr]; [contradiction | ].
  destruct rs as [ | r0 rr]; [contradiction | ].
  set (qs := q0 :: qr) in *.
  set (m := qmin q0 qr).
  set (M := qmax r0 rr).
  set (P := qmax (q0 - m) (map (fun q => q - m) qr)).
  destruct (qmin_spec qr q0) as [Hm_in Hm_le]. fold m qs in Hm_in, Hm_le.
  destruct (qmax_spec rr r0) as [HM_in HM_ge]. fold M in HM_in, HM_ge.
  destruct (qmax_spec (map (fun q => q - m) qr) (q0 - m)) as [HP_in HP_ge].
  fold P in HP_in, HP_ge.
  change ((q0 - m) :: map (fun q => q - m) qr)
    with (map (fun q => q - m) qs) in HP_in, HP_ge.
  assert (Hp_le : forall q, In q qs -> q - m <= P).
  { intros q Hq. apply HP_ge. apply in_map_iff. exists q. split; [reflexivity | exact Hq]. }
  assert (HP0 : P <> 0).
  { intros HP. apply Hab.
    assert (Heq : forall q, In q qs -> q = m).
    { intros q Hq. apply Qcle_antisym; [ | apply Hm_le; exact Hq].
      apply sub_le_0. rewrite <- HP. apply Hp_le. exact Hq. }
    rewrite (Heq a Ha), (Heq b Hb). reflexivity. }
  assert (HPpos : 0 < P).
  { assert (Hge : 0 <= P).
    { apply Qcle_trans with (q0 - m).
      - apply sub_nonneg. apply Hm_le. left. reflexivity.
      - apply Hp_le. left. reflexivity. }
    destruct (Qcle_lt_or_eq _ _ Hge) as [Hlt | Heq]; [exact Hlt | ].
    exfalso. apply HP0. symmetry. exact Heq. }
  assert (HM0 : 0 <= M).
  { apply Qcle_trans with r0.
    - inversion Hnonneg; assumption.
    - apply HM_ge. left. reflexivity. }
  assert (Hratio : 0 <= M / P) by (apply div_nonneg; assumption).
  assert (Hlo : forall q, In q qs -> 0 <= scaled m M P q).
  { intros q Hq. unfold scaled.
    rewrite <- (Qcmult_0_l (M / P)).
    apply Qcmult_le_compat_r; [ | exact Hratio].
    apply sub_nonneg. apply Hm_le. exact Hq. }
  assert (Hhi : forall q, In q qs -> scaled m M P q <= M).
  { intros q Hq. unfold scaled.
    rewrite <- (Qcmult_div_r M P HP0) at 2.
    apply Qcmult_le_compat_r; [apply Hp_le; exact Hq | exact Hratio]. }
  exists m, M, P.
  split; [apply py_min_fin | ].
  split; [apply np_max_fin | ].
  split; [rewrite fsub_fin; apply np_max_fin | ].
  split; [exact HP0 | ].
  split; [apply rescaled_fin; exact HP0 | ].
  change (map (scaled m M P) qs)
    with (scaled m M P q0 :: map (scaled m M P) qr).
  rewrite py_min_fin, np_max_fin.
  destruct (qmin_spec (map (scaled m M P) qr) (scaled m M P q0)) as [Lin Lle].
  destruct (qmax_spec (map (scaled m M P) qr) (scaled m M P q0)) as [Uin Uge].
  change (scaled m M P q0 :: map (scaled m M P) qr)
    with (map (scaled m M P) qs) in Lin, Lle, Uin, Uge.
  split; do 2 f_equal.
  - apply Qcle_antisym.
    + apply Lle. apply in_map_iff. exists m. split; [ | exact Hm_in].
      unfold scaled. ring.
    + apply in_map_iff in Lin. destruct Lin as (q & <- & Hq). apply Hlo. exact Hq.
  - apply Qcle_antisym.
    + apply in_map_iff in Uin. destruct Uin as (q & <- & Hq). apply Hhi. exact Hq.
    + apply Uge. apply in_map_iff in HP_in. destruct HP_in as (q & HqP & Hq).
      apply in_map_iff. exists q. split; [ | exact Hq].
      unfold scaled. rewrite HqP. apply Qcmult_div_r. exact HP0.
Qed.

End ExactOverlay.

(** ** C3, C5: what the overlay stage is given, and what its failure does *)

Section OverlayStage.

Context {F : Type} `{Float64 F}.
Variable colors : list string.
Variable loadtxt : string -> exn + ndarray F.

Local Open Scope py_scope.

(** The spec's reading of the reference curve of a 13C request. *)
Definition overlay_reference_is_first_found (self : app F) : Prop :=
  forall d,
    first_found_curve self (families_widget (tabC self)) = Some d ->
    fst (sim_C (cleared self)) = inr (Data d).

(** The spec's reading of a failed overlay: the axes end up as they do for
    the same request without the overlay. *)
Definition overlay_failure_contained_N (self : app F) : Prop :=
  ax (fig (snd (update_plot_N colors loadtxt self)))
  = ax (fig (snd (update_plot_N colors loadtxt (overlay_off self)))).

Definition overlay_failure_contained_C (self : app F) : Prop :=
  ax (fig (snd (update_plot_C colors loadtxt self)))
  = ax (fig (snd (update_plot_C colors loadtxt (overlay_off self)))).

Definition is_marker (a : artist F) : bool :=
  match a with
  | VLine _ _ _ => true
  | _ => false
  end.

(** C3, as amended: the [XY8] that the overlay code reads is the one the
    last lookup left.  In [update_plot_C], when the family selected last has
    a row, it is that family's curve, whichever families were found before
    it; in [update_plot_N], when the row exists, it is its curve.  The
    overlay and all that follows run from there. *)
Theorem overlay_reference_is_last_lookup (self : app F) :
  (forall u fams fam r rest,
     py_index unit_list (unit_btngrp_C (tabC self)) = inr u ->
     families_widget (tabC self) = (fams ++ [fam])%list ->
     read_where_C self fam = r :: rest ->
     fst (sim_C (cleared self)) = inr (Data (c_data r))
     /\ update_plot_C colors loadtxt self
        = (expt_C loadtxt (Data (c_data r)) ;;; markers_C colors ;;; finish_C)
            (snd (sim_C (cleared self))))
  /\ (forall u r rest,
        py_index unit_list (unit_btngrp_N (tabN self)) = inr u ->
        read_where_N self = r :: rest ->
        fst (sim_N (cleared self)) = inr (Data (n_data r))
        /\ update_plot_N colors loadtxt self
           = (expt_N loadtxt (Data (n_data r)) ;;; markers_N colors ;;; finish_N)
               (snd (sim_N (cleared self)))).
Proof.
  split.
  - intros u fams fam r rest Hu Hsel Hrow.
    assert (Hsim : fst (sim_C (cleared self)) = inr (Data (c_data r))).
    { rewrite (@sim_C_run _ _ (cleared self) u) by exact Hu.
      simpl fst.
      change (families_widget (tabC (cleared self)))
        with (families_widget (tabC self)).
      rewrite Hsel, map_app. simpl map. rewrite last_last.
      unfold family_XY8.
      change (read_where_C (cleared self) fam) with (read_where_C self fam).
      rewrite Hrow. reflexivity. }
    split; [exact Hsim | ].
    rewrite update_plot_C_unfold.
    destruct (sim_C (cleared self)) as [[e | XY8] s]; simpl in Hsim.
    + discriminate.
    + injection Hsim as ->. reflexivity.
  - intros u r rest Hu Hrow.
    assert (Hsim : fst (sim_N (cleared self)) = inr (Data (n_data r))).
    { rewrite (@sim_N_found _ _ (cleared self) u r rest); [reflexivity | exact Hu | exact Hrow]. }
    split; [exact Hsim | ].
    rewrite update_plot_N_unfold.
    destruct (sim_N (cleared self)) as [[e | XY8] s]; simpl in Hsim.
    + discriminate.
    + injection Hsim as ->. reflexivity.
Qed.

(** C5, as amended: when [np.loadtxt] raises on the selected file, the
    exception leaves [update_plot_N] and [update_plot_C]: with a valid unit
    index the method ends with that exception, and the state it leaves is the
    cleared figure with the simulated curves and placeholders only.  No
    marker is drawn, no message box shown, the canvas is not redrawn. *)
Theorem overlay_load_failure_aborts_render (self : app F) (e : exn) :
  (forall u,
     overlay_on_N self ->
     loadtxt (expt_filename_N (tabN self)) = inl e ->
     py_index unit_list (unit_btngrp_N (tabN self)) = inr u ->
     exists l,
       update_plot_N colors loadtxt self = (inl e, add_artists l (cleared self))
       /\ Forall sim_artist l)
  /\ (forall u,
        overlay_on_C self ->
        loadtxt (expt_filename_C (tabC self)) = inl e ->
        py_index unit_list (unit_btngrp_C (tabC self)) = inr u ->
        exists l,
          update_plot_C colors loadtxt self = (inl e, add_artists l (cleared self))
          /\ Forall sim_artist l).
Proof.
  split; intros u Hon Hload Hu.
  - rewrite update_plot_N_unfold.
    destruct (read_where_N (cleared self)) as [ | r rest] eqn:Hrow.
    + rewrite (sim_N_not_found _ Hrow).
      rewrite (@expt_N_load_fails _ _ loadtxt _ _ e); [ | exact Hon | exact Hload].
      eexists. split; [reflexivity | ]. repeat constructor.
    + rewrite (@sim_N_found _ _ (cleared self) u r rest); [ | exact Hu | exact Hrow].
      rewrite (@expt_N_load_fails _ _ loadtxt _ _ e); [ | exact Hon | exact Hload].
      eexists. split; [reflexivity | ]. repeat constructor.
  - rewrite update_plot_C_unfold.
    rewrite (@sim_C_run _ _ (cleared self) u) by exact Hu.
    rewrite (@expt_C_load_fails _ _ loadtxt _ _ e); [ | exact Hon | exact Hload].
    eexists. split; [reflexivity | ]. apply sim_artist_family.
Qed.

End OverlayStage.

(** ** C2: a zero field *)

Section ZeroField.

Context {F : Type} `{Float64 F}.
Variable colors : list string.
Variable loadtxt : string -> exn + ndarray F.

Local Open Scope f64_scope.
Local Open Scope py_scope.

(** The state after [QMessageBox.exec()] of the zero-field message. *)
Definition zero_field_reported (self : app F) : (exn + unit) * app F :=
  box_exec B0err self.

(** The state after the closing statements of either method. *)
Definition finished (x_axis_label : string) (self : app F) : app F :=
  with_fig (fun g =>
    {| ax := (ax g ++ [Text arxiv_text])%list; xlabel := x_axis_label;
       boxes := boxes g; draws := S (draws g); plot_ready := true |}) self.

Lemma markers_N_zero_field (self : app F) :
  (B0_widget_N (tabN self) == of_int 0) = true ->
  gyromagnetic_widget_N (tabN self) <> [] ->
  markers_N colors self = zero_field_reported self.
Proof.
  intros Hz Hne. unfold markers_N, bind, get. rewrite Hz. simpl.
  destruct (gyromagnetic_widget_N (tabN self)); [contradiction | reflexivity].
Qed.

Lemma markers_C_zero_field (self : app F) :
  (B0_widget_C (tabC self) == of_int 0) = true ->
  gyromagnetic_widget_C (tabC self) <> [] ->
  markers_C colors self = zero_field_reported self.
Proof.
  intros Hz Hne. unfold markers_C, bind, get. rewrite Hz. simpl.
  destruct (gyromagnetic_widget_C (tabC self)); [contradiction | reflexivity].
Qed.

Lemma expt_N_off (self : app F) XY8 :
  expt_chkbox_N (tabN self) && negb (String.eqb (expt_filename_N (tabN self)) "")
  = false ->
  expt_N loadtxt XY8 self = (inr tt, self).
Proof. intros Hoff. unfold expt_N, bind, get. rewrite Hoff. reflexivity. Qed.

Lemma expt_C_off (self : app F) XY8 :
  expt_chkbox_C (tabC self) && negb (String.eqb (expt_filename_C (tabC self)) "")
  = false ->
  expt_C loadtxt XY8 self = (inr tt, self).
Proof. intros Hoff. unfold expt_C, bind, get. rewrite Hoff. reflexivity. Qed.

Lemma py_index_same_length A B (l1 : list A) (l2 : list B) (i : Z) (a : A) :
  List.length l1 = List.length l2 ->
  py_index l1 i = inr a ->
  exists b, py_index l2 i = inr b.
Proof.
  unfold py_index. cbv zeta. intros Hlen. rewrite Hlen.
  destruct (_ || _); [discriminate | ].
  destruct (nth_error l1 _) as [a' | ] eqn:E1; [ | discriminate].
  intros _.
  destruct (nth_error l2 _) as [b | ] eqn:E2.
  - exists b. reflexivity.
  - apply nth_error_None in E2.
    assert (Hlt : (Z.to_nat (if (i <? 0)%Z
                             then (i + Z.of_nat (List.length l2))%Z else i)
                   < List.length l1)%nat).
    { apply nth_error_Some. congruence. }
    lia.
Qed.

Lemma finish_N_run (self : app F) u :
  py_index unit_list (unit_btngrp_N (tabN self)) = inr u ->
  exists lbl, finish_N self = (inr tt, finished lbl self).
Proof.
  intros Hu. unfold finish_N, bind, get, lift.
  destruct (radio2_N (tabN self)).
  - destruct (@py_index_same_length _ _ unit_list unit_label_f _ u eq_refl Hu)
      as [lbl ->].
    exists lbl. reflexivity.
  - destruct (@py_index_same_length _ _ unit_list unit_label_t _ u eq_refl Hu)
      as [lbl ->].
    exists lbl. reflexivity.
Qed.

Lemma finish_C_run (self : app F) u :
  py_index unit_list (unit_btngrp_C (tabC self)) = inr u ->
  exists lbl, finish_C self = (inr tt, finished lbl self).
Proof.
  intros Hu. unfold finish_C, bind, get, lift.
  destruct (radio2_C (tabC self)).
  - destruct (@py_index_same_length _ _ unit_list unit_label_f _ u eq_refl Hu)
      as [lbl ->].
    exists lbl. reflexivity.
  - destruct (@py_index_same_length _ _ unit_list unit_label_t _ u eq_refl Hu)
      as [lbl ->].
    exists lbl. reflexivity.
Qed.

Lemma no_marker_family self u fams :
  filter (@is_marker F) (map (family_artist self u) fams) = [].
Proof.
  induction fams as [ | fam rest IH]; [reflexivity | ].
  simpl. unfold family_artist at 1.
  destruct (read_where_C self fam); exact IH.
Qed.

(** What a whole render shows on a zero field: it ends normally, with the
    message box, the artists of the simulation stage and no marker. *)
Definition zero_field_render (self : app F) (r : (exn + unit) * app F)
           (sim : app F) : Prop :=
  fst r = inr tt
  /\ boxes (fig (snd r)) = (boxes (fig self) ++ [B0err])%list
  /\ ax (fig (snd r)) = (ax (fig sim) ++ [Text arxiv_text])%list
  /\ filter (@is_marker F) (ax (fig (snd r))) = [].

Lemma sim_N_one_artist (self : app F) u :
  py_index unit_list (unit_btngrp_N (tabN self)) = inr u ->
  exists XY8 a,
    sim_N self = (inr XY8, add_artists [a] self) /\ is_marker a = false.
Proof.
  intros Hu. destruct (read_where_N self) as [ | r rest] eqn:Hrow.
  - exists (Rows []), (Text no_data_text).
    split; [apply sim_N_not_found; exact Hrow | reflexivity].
  - exists (Data (n_data r)),
           (Line (x_axis_of (radio2_N (tabN self)) u (data self)) (n_data r) "Sim").
    split; [ | reflexivity].
    apply (@sim_N_found _ _ self u r rest); [exact Hu | exact Hrow].
Qed.

Lemma update_plot_N_zero_field (self : app F) u :
  (B0_widget_N (tabN self) == of_int 0) = true ->
  gyromagnetic_widget_N (tabN self) <> [] ->
  expt_chkbox_N (tabN self) && negb (String.eqb (expt_filename_N (tabN self)) "")
  = false ->
  py_index unit_list (unit_btngrp_N (tabN self)) = inr u ->
  zero_field_render self (update_plot_N colors loadtxt self)
                    (snd (sim_N (cleared self))).
Proof.
  intros Hz Hne Hoff Hu. rewrite update_plot_N_unfold.
  destruct (@sim_N_one_artist (cleared self) u Hu) as (XY8 & a & -> & Ha).
  rewrite expt_N_off by exact Hoff.
  rewrite markers_N_zero_field; [ | exact Hz | exact Hne].
  unfold zero_field_reported.
  set (s1 := add_artists [a] (cleared self)).
  change (box_exec B0err s1) with (inr tt : exn + unit, snd (box_exec B0err s1)).
  cbv iota beta.
  destruct (@finish_N_run (snd (box_exec B0err s1)) u Hu) as [lbl ->].
  repeat split. simpl. rewrite Ha. reflexivity.
Qed.

Lemma update_plot_C_zero_field (self : app F) u :
  (B0_widget_C (tabC self) == of_int 0) = true ->
  gyromagnetic_widget_C (tabC self) <> [] ->
  expt_chkbox_C (tabC self) && negb (String.eqb (expt_filename_C (tabC self)) "")
  = false ->
  py_index unit_list (unit_btngrp_C (tabC self)) = inr u ->
  zero_field_render self (update_plot_C colors loadtxt self)
                    (snd (sim_C (cleared self))).
Proof.
  intros Hz Hne Hoff Hu. rewrite update_plot_C_unfold.
  rewrite (@sim_C_run _ _ (cleared self) u) by exact Hu.
  rewrite expt_C_off by exact Hoff.
  rewrite markers_C_zero_field; [ | exact Hz | exact Hne].
  unfold zero_field_reported.
  set (s1 := add_artists _ (cleared self)).
  change (box_exec B0err s1) with (inr tt : exn + unit, snd (box_exec B0err s1)).
  cbv iota beta.
  destruct (@finish_C_run (snd (box_exec B0err s1)) u Hu) as [lbl ->].
  repeat split. simpl.
  rewrite filter_app, no_marker_family. reflexivity.
Qed.

(** C2: on a zero field with at least one label selected the marker code
    of either method shows the "Cannot divide by zero" box, returns normally
    and draws nothing, so the axes keep the curves they had; with no label
    selected it does nothing at all, whatever the field.  A whole render
    without overlay then ends normally with the box, the simulated curves
    and no marker. *)
Theorem zero_field_marker_error (self : app F) :
  ((B0_widget_N (tabN self) == of_int 0) = true ->
   gyromagnetic_widget_N (tabN self) <> [] ->
   markers_N colors self = zero_field_reported self
   /\ ax (fig (snd (markers_N colors self))) = ax (fig self)
   /\ boxes (fig (snd (markers_N colors self))) = (boxes (fig self) ++ [B0err])%list
   /\ forall u,
        expt_chkbox_N (tabN self)
        && negb (String.eqb (expt_filename_N (tabN self)) "") = false ->
        py_index unit_list (unit_btngrp_N (tabN self)) = inr u ->
        zero_field_render self (update_plot_N colors loadtxt self)
                          (snd (sim_N (cleared self))))
  /\ ((B0_widget_C (tabC self) == of_int 0) = true ->
      gyromagnetic_widget_C (tabC self) <> [] ->
      markers_C colors self = zero_field_reported self
      /\ ax (fig (snd (markers_C colors self))) = ax (fig self)
      /\ boxes (fig (snd (markers_C colors self))) = (boxes (fig self) ++ [B0err])%list
      /\ forall u,
           expt_chkbox_C (tabC self)
           && negb (String.eqb (expt_filename_C (tabC self)) "") = false ->
           py_index unit_list (unit_btngrp_C (tabC self)) = inr u ->
           zero_field_render self (update_plot_C colors loadtxt self)
                             (snd (sim_C (cleared self))))
  /\ (gyromagnetic_widget_N (tabN self) = [] ->
      markers_N colors self = (inr tt, self))
  /\ (gyromagnetic_widget_C (tabC self) = [] ->
      markers_C colors self = (inr tt, self)).
Proof.
  split; [ | split; [ | split]].
  - intros Hz Hne. rewrite (markers_N_zero_field self Hz Hne).
    split; [reflexivity | split; [reflexivity | split; [reflexivity | ]]].
    intros u Hoff Hu.
    apply (update_plot_N_zero_field self Hz Hne Hoff Hu).
  - intros Hz Hne. rewrite (markers_C_zero_field self Hz Hne).
    split; [reflexivity | split; [reflexivity | split; [reflexivity | ]]].
    intros u Hoff Hu.
    apply (update_plot_C_zero_field self Hz Hne Hoff Hu).
  - intros Hnil. unfold markers_N, bind, get. rewrite Hnil.
    destruct (B0_widget_N (tabN self) == of_int 0); reflexivity.
  - intros Hnil. unfold markers_C, bind, get. rewrite Hnil.
    destruct (B0_widget_C (tabC self) == of_int 0); reflexivity.
Qed.

End ZeroField.

Lemma zero_field_marker_error_witness :
  markers_N Sample.colors (Sample.request (of_int 0 : float) "expt.txt")
  = zero_field_reported (Sample.request (of_int 0 : float) "expt.txt")
  /\ markers_C Sample.colors (Sample.request (of_int 0 : float) "expt.txt")
     = zero_field_reported (Sample.request (of_int 0 : float) "expt.txt")
  /\ zero_field_render
       (overlay_off (Sample.request (of_int 0 : float) "expt.txt"))
       (update_plot_N Sample.colors Sample.loadtxt
          (overlay_off (Sample.request (of_int 0 : float) "expt.txt")))
       (snd (sim_N (cleared (overlay_off
                               (Sample.request (of_int 0 : float) "expt.txt"))))).
Proof.
  destruct (@zero_field_marker_error float binary64 Sample.colors Sample.loadtxt
              (Sample.request (of_int 0 : float) "expt.txt"))
    as (HN & HC & _).
  destruct (@zero_field_marker_error float binary64 Sample.colors Sample.loadtxt
              (overlay_off (Sample.request (of_int 0 : float) "expt.txt")))
    as (HN' & _).
  split; [ | split].
  - apply HN; [reflexivity | discriminate].
  - apply HC; [reflexivity | discriminate].
  - destruct HN' as (_ & _ & _ & Hrender); [reflexivity | discriminate | ].
    apply (Hrender (of_int 1)); reflexivity.
Defined.

(** With A and B both found, the overlay is scaled to the maximum 0.5 of
    B's curve, not to the maximum 1 of A's, the first one found. *)
Lemma overlay_reference_not_first_found :
  first_found_curve (Sample.request (of_int 5 : float) "expt.txt") ["A"; "B"]
  = Some Sample.curve_A
  /\ fst (sim_C (cleared (Sample.request (of_int 5 : float) "expt.txt")))
     = inr (Data Sample.curve_B)
  /\ np_max (Sample.curve_A (F := float)) = inr (of_int 1)
  /\ np_max (Sample.curve_B (F := float)) = inr Sample.half
  /\ In (Scatter [of_int 0; of_int 1; of_int 2]
                 [of_int 0; Sample.half; Sample.quarter] "Exp")
        (ax (fig (snd (update_plot_C Sample.colors Sample.loadtxt
                         (Sample.request (of_int 5 : float) "expt.txt")))))
  /\ ~ overlay_reference_is_first_found
         (Sample.request (of_int 5 : float) "expt.txt").
Proof.
  split; [vm_compute; reflexivity | ].
  split; [vm_compute; reflexivity | ].
  split; [vm_compute; reflexivity | ].
  split; [vm_compute; reflexivity | ].
  split.
  - vm_compute. right. right. left. reflexivity.
  - intros Hspec.
    specialize (Hspec Sample.curve_A).
    vm_compute in Hspec. specialize (Hspec eq_refl). discriminate Hspec.
Qed.

Lemma overlay_reference_is_last_lookup_witness :
  fst (sim_C (cleared (Sample.request (of_int 5 : float) "expt.txt")))
  = inr (Data Sample.curve_B).
Proof.
  apply (proj1 (@overlay_reference_is_last_lookup float binary64
                  Sample.colors Sample.loadtxt
                  (Sample.request (of_int 5 : float) "expt.txt"))
               (of_int 1) ["A"] "B"
               (mkC13 (-1) 8 (of_int 5) "B" Sample.curve_B)
               []).
  - reflexivity.
  - reflexivity.
  - vm_compute. reflexivity.
Defined.

(** With a file that [np.loadtxt] rejects, [update_plot_N] ends with the
    exception after the curve: the two markers that the same request draws
    without the overlay are missing and the canvas is not redrawn. *)
Lemma overlay_failure_drops_markers :
  fst (update_plot_N Sample.colors Sample.loadtxt
         (Sample.request (of_int 5 : float) "bad.txt")) = inl LoadError
  /\ filter (@is_marker float)
            (ax (fig (snd (update_plot_N Sample.colors Sample.loadtxt
                             (Sample.request (of_int 5 : float) "bad.txt"))))) = []
  /\ draws (fig (snd (update_plot_N Sample.colors Sample.loadtxt
                        (Sample.request (of_int 5 : float) "bad.txt")))) = 0%nat
  /\ List.length
       (filter (@is_marker float)
               (ax (fig (snd (update_plot_N Sample.colors Sample.loadtxt
                                (overlay_off
                                   (Sample.request (of_int 5 : float) "bad.txt")))))))
     = 2%nat
  /\ ~ overlay_failure_contained_N Sample.colors Sample.loadtxt
         (Sample.request (of_int 5 : float) "bad.txt")
  /\ ~ overlay_failure_contained_C Sample.colors Sample.loadtxt
         (Sample.request (of_int 5 : float) "bad.txt").
Proof.
  split; [vm_compute; reflexivity | ].
  split; [vm_compute; reflexivity | ].
  split; [vm_compute; reflexivity | ].
  split; [vm_compute; reflexivity | ].
  split.
  - intros Hspec. apply (f_equal (@List.length _)) in Hspec.
    vm_compute in Hspec. discriminate Hspec.
  - intros Hspec. apply (f_equal (@List.length _)) in Hspec.
    vm_compute in Hspec. discriminate Hspec.
Qed.

Lemma overlay_load_failure_aborts_render_witness :
  exists l,
    update_plot_N Sample.colors Sample.loadtxt
      (Sample.request (of_int 5 : float) "bad.txt")
    = (inl LoadError,
       add_artists l (cleared (Sample.request (of_int 5 : float) "bad.txt")))
    /\ Forall (@sim_artist float) l.
Proof.
  apply (proj1 (@overlay_load_failure_aborts_render float binary64
                  Sample.colors Sample.loadtxt
                  (Sample.request (of_int 5 : float) "bad.txt") LoadError)
               (of_int 1)).
  - split; [reflexivity | discriminate].
  - reflexivity.
  - reflexivity.
Defined.

(** ** C4 and C10: the rescaling *)

(** C4, as amended: in exact arithmetic, for a loaded two-column array
    whose second column [qs] is finite and not constant, and a non-empty
    reference curve [rs] of non-negative values, the overlay code of either
    method draws the first column against [(q - m) * (M / P)], where [m] is
    the minimum of the column, [M] the maximum of the reference and [P] the
    maximum of the baseline-corrected column; the minimum of the drawn
    values is 0 and their maximum is [M]. *)
Theorem overlay_rescaled_range (loadtxt : string -> exn + ndarray xq)
        (self : app xq) (exp_data : ndarray xq) (x : list xq) (qs rs : list Qc) :
  (exists a b, In a qs /\ In b qs /\ a <> b) ->
  rs <> [] ->
  Forall (fun r => (0 <= r)%Qc) rs ->
  column 0 exp_data = inr x ->
  column 1 exp_data = inr (map Fin qs) ->
  exists m M P : Qc,
    py_min (map Fin qs) = inr (Fin m)
    /\ np_max (map Fin rs) = inr (Fin M)
    /\ np_max (map (fun v => fsub v (Fin m)) (map Fin qs)) = inr (Fin P)
    /\ P <> 0%Qc
    /\ (overlay_on_N self ->
        loadtxt (expt_filename_N (tabN self)) = inr exp_data ->
        expt_N loadtxt (Data (map Fin rs)) self
        = (inr tt,
           add_artists
             [Scatter x (map Fin (map (ExactOverlay.scaled m M P) qs)) "Exp"] self))
    /\ (overlay_on_C self ->
        loadtxt (expt_filename_C (tabC self)) = inr exp_data ->
        expt_C loadtxt (Data (map Fin rs)) self
        = (inr tt,
           add_artists
             [Scatter x (map Fin (map (ExactOverlay.scaled m M P) qs)) "Exp"] self))
    /\ py_min (map Fin (map (ExactOverlay.scaled m M P) qs)) = inr (Fin 0%Qc)
    /\ np_max (map Fin (map (ExactOverlay.scaled m M P) qs)) = inr (Fin M).
Proof.
  intros Hvar Hrs Hnonneg Hx Hy.
  destruct (@ExactOverlay.rescaled_exact qs rs Hvar Hrs Hnonneg)
    as (m & M & P & Hm & HM & HP & HP0 & Hres & Hmin & Hmax).
  exists m, M, P.
  repeat (split; [assumption | ]).
  split; [ | split; [ | split; assumption]].
  - intros Hon Hload. rewrite <- Hres.
    apply (@expt_N_run _ _ loadtxt self (map Fin rs) exp_data x (map Fin qs)
                       (Fin m) (Fin M) (Fin P)); assumption.
  - intros Hon Hload. rewrite <- Hres.
    apply (@expt_C_run _ _ loadtxt self (map Fin rs) exp_data x (map Fin qs)
                       (Fin m) (Fin M) (Fin P)); assumption.
Qed.

(** The exact reading of the sample curve A and of the second column of the
    sample overlay file. *)
Definition sample_reference : list Qc :=
  Q2Qc (1 # 2) :: Q2Qc (inject_Z 1) :: repeat (Q2Qc (1 # 4)) 998.
Definition sample_column : list Qc :=
  [Q2Qc (inject_Z 1); Q2Qc (inject_Z 3); Q2Qc (inject_Z 2)].

Lemma overlay_rescaled_range_witness :
  exists m M P : Qc,
    py_min (map Fin sample_column) = inr (Fin m)
    /\ np_max (map Fin sample_reference) = inr (Fin M)
    /\ P <> 0%Qc
    /\ expt_N Sample.loadtxt (Data (map Fin sample_reference))
              (Sample.request (of_int 5 : xq) "expt.txt")
       = (inr tt,
          add_artists
            [Scatter [of_int 0; of_int 1; of_int 2]
                     (map Fin (map (ExactOverlay.scaled m M P) sample_column))
                     "Exp"]
            (Sample.request (of_int 5 : xq) "expt.txt"))
    /\ py_min (map Fin (map (ExactOverlay.scaled m M P) sample_column))
       = inr (Fin 0%Qc)
    /\ np_max (map Fin (map (ExactOverlay.scaled m M P) sample_column))
       = inr (Fin M).
Proof.
  destruct (@overlay_rescaled_range Sample.loadtxt
              (Sample.request (of_int 5 : xq) "expt.txt")
              (Arr2 [[of_int 0; of_int 1]; [of_int 1; of_int 3]; [of_int 2; of_int 2]])
              [of_int 0; of_int 1; of_int 2]
              sample_column sample_reference)
    as (m & M & P & Hm & HM & _ & HP & HN & _ & Hmin & Hmax).
  - exists (Q2Qc (inject_Z 1)), (Q2Qc (inject_Z 3)).
    split; [left; reflexivity | ].
    split; [right; left; reflexivity | discriminate].
  - discriminate.
  - apply Forall_forall. intros r [<- | [<- | Hr]]; try discriminate.
    apply repeat_spec in Hr. subst r. discriminate.
  - reflexivity.
  - reflexivity.
  - exists m, M, P.
    split; [exact Hm | ]. split; [exact HM | ]. split; [exact HP | ].
    split; [ | split; [exact Hmin | exact Hmax]].
    apply HN.
    + split; [reflexivity | discriminate].
    + reflexivity.
Defined.

(** On binary64, a file whose second column is constant: the overlay is
    drawn with NaN in every y value, so its minimum is not 0 and its maximum
    is not the maximum 1 of the reference curve. *)
Lemma constant_column_breaks_range :
  expt_N Sample.loadtxt (Data Sample.curve_A)
         (Sample.request (of_int 5 : float) "flat.txt")
  = (inr tt,
     add_artists [Scatter [of_int 0; of_int 1] [nan; nan] "Exp"]
                 (Sample.request (of_int 5 : float) "flat.txt"))
  /\ py_min [nan; nan] = inr nan
  /\ feqb nan (of_int 0 : float) = false
  /\ np_max [nan; nan] = inr nan
  /\ np_max Sample.curve_A = inr (of_int 1 : float)
  /\ feqb nan (of_int 1 : float) = false.
Proof.
  split; [vm_compute; reflexivity | ].
  repeat split.
Qed.

(** In exact arithmetic a constant column [c, ..., c] always ends this
    way: the baseline-corrected column is all zeros, its maximum is 0, and
    every rescaled value is [0 * M / 0], which is NaN. *)
Lemma constant_column_exact (c M : Qc) (n : nat) :
  py_min (map Fin (repeat c (S n))) = inr (Fin c)
  /\ np_max (map (fun v => fsub v (Fin c)) (map Fin (repeat c (S n))))
     = inr (Fin 0%Qc)
  /\ rescaled (map Fin (repeat c (S n))) (Fin c) (Fin M) (Fin 0%Qc)
     = repeat NaN (S n).
Proof.
  assert (Hp : forall k,
             map (fun v => fsub v (Fin c)) (map Fin (repeat c k))
             = repeat (Fin 0%Qc) k).
  { induction k as [ | k IH]; [reflexivity | ].
    change (repeat c (S k)) with (c :: repeat c k).
    rewrite !map_cons, IH.
    replace (fsub (Fin c) (Fin c)) with (Fin 0%Qc); [reflexivity | ].
    simpl. f_equal. symmetry. apply Qcplus_opp_r. }
  assert (Hnan : fdiv (fmul (Fin 0%Qc) (Fin M)) (Fin 0%Qc) = NaN).
  { simpl. rewrite Qcmult_0_l. reflexivity. }
  split; [ | split].
  - simpl. f_equal. induction n as [ | n IH]; simpl.
    + reflexivity.
    + replace (Exact.Qc_ltb c c) with false; [exact IH | ].
      symmetry. apply not_true_is_false. intros Hlt.
      apply ExactFacts.Qc_ltb_lt in Hlt. exact (Qclt_not_eq _ _ Hlt eq_refl).
  - rewrite Hp. unfold np_max. simpl repeat. f_equal.
    induction n as [ | n IH]; [reflexivity | exact IH].
  - unfold rescaled. rewrite Hp, map_repeat, Hnan. reflexivity.
Qed.

(** C10: the rescaling divides by [np.max(p)] unguarded.  On binary64,
    for the two-row file [0 1 / 1 1], [p] is [0, 0], its maximum is 0, and
    both methods draw the overlay with NaN values, raise nothing and redraw
    the canvas; in exact arithmetic every constant column gives NaN
    throughout. *)
Theorem constant_column_divides_by_zero :
  (update_plot_N Sample.colors Sample.loadtxt
     (Sample.request (of_int 5 : float) "flat.txt")
   = (inr tt,
      snd (finish_N
             (snd (markers_N Sample.colors
                     (add_artists
                        [Line (x_axis_of false (of_int 1) Sample.loaded)
                              Sample.curve_A "Sim";
                         Scatter [of_int 0; of_int 1] [nan; nan] "Exp"]
                        (cleared (Sample.request (of_int 5 : float) "flat.txt"))))))))
  /\ fst (update_plot_C Sample.colors Sample.loadtxt
            (Sample.request (of_int 5 : float) "flat.txt")) = inr tt
  /\ In (Scatter [of_int 0; of_int 1] [nan; nan] "Exp")
        (ax (fig (snd (update_plot_N Sample.colors Sample.loadtxt
                         (Sample.request (of_int 5 : float) "flat.txt")))))
  /\ In (Scatter [of_int 0; of_int 1] [nan; nan] "Exp")
        (ax (fig (snd (update_plot_C Sample.colors Sample.loadtxt
                         (Sample.request (of_int 5 : float) "flat.txt")))))
  /\ boxes (fig (snd (update_plot_N Sample.colors Sample.loadtxt
                        (Sample.request (of_int 5 : float) "flat.txt")))) = []
  /\ draws (fig (snd (update_plot_N Sample.colors Sample.loadtxt
                        (Sample.request (of_int 5 : float) "flat.txt")))) = 1%nat
  /\ (forall (c M : Qc) (n : nat),
        np_max (map (fun v => fsub v (Fin c)) (map Fin (repeat c (S n))))
        = inr (Fin 0%Qc)
        /\ rescaled (map Fin (repeat c (S n))) (Fin c) (Fin M) (Fin 0%Qc)
           = repeat NaN (S n)).
Proof.
  split; [vm_compute; reflexivity | ].
  split; [vm_compute; reflexivity | ].
  split; [vm_compute; right; left; reflexivity | ].
  split; [vm_compute; right; right; left; reflexivity | ].
  split; [vm_compute; reflexivity | ].
  split; [vm_compute; reflexivity | ].
  intros c M n. destruct (constant_column_exact c M n) as (_ & Hp & Hres).
  split; assumption.
Qed.

(** ** C7: the canonical axes *)

(** Differences of consecutive entries. *)
Fixpoint gaps {F : Type} `{Float64 F} (l : list F) : list F :=
  match l with
  | a :: (b :: _) as r => fsub b a :: gaps r
  | _ => []
  end.

Module ExactEq.

(** Decidable equality on the exact values, to compare computed lists. *)
Definition xq_eqb (a b : xq) : bool :=
  match a, b with
  | Fin p, Fin q => Exact.Qc_eqb p q
  | PInf, PInf | NInf, NInf | NaN, NaN => true
  | _, _ => false
  end.

Fixpoint list_eqb (l1 l2 : list xq) : bool :=
  match l1, l2 with
  | [], [] => true
  | a :: l1', b :: l2' => xq_eqb a b && list_eqb l1' l2'
  | _, _ => false
  end.

Lemma xq_eqb_eq (a b : xq) : xq_eqb a b = true -> a = b.
Proof.
  destruct a, b; simpl; try discriminate; try reflexivity.
  intros E. apply ExactFacts.Qc_eqb_eq in E. congruence.
Qed.

Lemma list_eqb_eq (l1 : list xq) : forall l2, list_eqb l1 l2 = true -> l1 = l2.
Proof.
  induction l1 as [ | a l1 IH]; intros [ | b l2]; simpl; try discriminate.
  - reflexivity.
  - intros E. apply andb_true_iff in E. destruct E as [E1 E2].
    apply xq_eqb_eq in E1. apply IH in E2. congruence.
Qed.

End ExactEq.

Section CanonicalAxis.

Context {F : Type} `{Float64 F}.

Lemma load_data_axes (f : h5file) (d : dataset F) :
  load_data f = inr d -> tau d = load_tau /\ freq d = load_freq load_tau.
Proof.
  unfold load_data. destruct (rename_keys _ _) as [e | g]; [discriminate | ].
  intros [= <-]. split; reflexivity.
Qed.

Lemma update_plot_keeps_data colors loadtxt (self : app F) :
  data (snd (update_plot_N colors loadtxt self)) = data self
  /\ data (snd (update_plot_C colors loadtxt self)) = data self.
Proof.
  split.
  - apply (frame_update_plot_N colors loadtxt self).
  - apply (frame_update_plot_C colors loadtxt self).
Qed.

End CanonicalAxis.

(** C7: [self.tau] is [np.linspace(0.05, 3, 1000)]: 1000 points, the first
    0.05, the last 3, consecutive points (3 - 0.05)/999 apart in exact
    arithmetic; [self.freq] is [1/(2*tau)] point by point, on binary64 bit
    for bit.  [load_data] sets both, and neither [update_plot_N] nor
    [update_plot_C] changes them, however they end.  A curve that is found is
    drawn against [freq / unit_list[u]] in the frequency domain, which for
    unit index 0 on the loaded axes is [1/(2*tau)/1e3], and against
    [tau * unit_list[u]] in the time domain. *)
Theorem canonical_axes :
  (List.length (load_tau (F := float)) = 1000%nat
   /\ hd nan (load_tau (F := float)) = 0x1.999999999999ap-5%float
   /\ last (load_tau (F := float)) nan = of_int 3
   /\ load_freq (load_tau (F := float))
      = map (fun t => fdiv (of_int 1) (fmul (of_int 2) t)) load_tau
   /\ unit_list (F := float)
      = [1000; 1; 0x1.0624dd2f1a9fcp-10; 0x1.0c6f7a0b5ed8dp-20]%float
   /\ forall d : dataset float,
        tau d = load_tau -> freq d = load_freq load_tau ->
        x_axis_of true lit_1e3 d
        = map (fun t => fdiv (fdiv (of_int 1) (fmul (of_int 2) t)) (of_int 1000))
              load_tau)
  /\ (List.length (load_tau (F := xq)) = 1000%nat
      /\ hd NaN (load_tau (F := xq)) = Fin (Q2Qc (1 # 20))
      /\ last (load_tau (F := xq)) NaN = of_int 3
      /\ gaps (load_tau (F := xq)) = repeat (Fin (Q2Qc (59 # 19980))) 999
      /\ load_freq (load_tau (F := xq))
         = map (fun t => fdiv (of_int 1) (fmul (of_int 2) t)) load_tau
      /\ forall d : dataset xq,
           tau d = load_tau -> freq d = load_freq load_tau ->
           x_axis_of true lit_1e3 d
           = map (fun t => fdiv (fdiv (of_int 1) (fmul (of_int 2) t)) (of_int 1000))
                 load_tau)
  /\ (forall (F : Type) (H : Float64 F),
        (forall (f : h5file) (d : dataset F),
           load_data f = inr d -> tau d = load_tau /\ freq d = load_freq load_tau)
        /\ (forall colors loadtxt (self : app F),
              data (snd (update_plot_N colors loadtxt self)) = data self
              /\ data (snd (update_plot_C colors loadtxt self)) = data self)
        /\ py_index (unit_list (F := F)) 0 = inr lit_1e3
        /\ (forall (self : app F) u r rest,
              py_index unit_list (unit_btngrp_N (tabN self)) = inr u ->
              read_where_N self = r :: rest ->
              sim_N self
              = (inr (Data (n_data r)),
                 add_artists
                   [Line (if radio2_N (tabN self)
                          then map (fun f => fdiv f u) (freq (data self))
                          else map (fun t => fmul t u) (tau (data self)))
                         (n_data r) "Sim"] self))).
Proof.
  split; [ | split].
  - split; [vm_compute; reflexivity | ].
    split; [vm_compute; reflexivity | ].
    split; [vm_compute; reflexivity | ].
    split; [vm_compute; reflexivity | ].
    split; [vm_compute; reflexivity | ].
    intros d Ht Hf. unfold x_axis_of. rewrite Hf. vm_compute. reflexivity.
  - split; [vm_compute; reflexivity | ].
    split; [apply ExactEq.xq_eqb_eq; vm_compute; reflexivity | ].
    split; [apply ExactEq.xq_eqb_eq; vm_compute; reflexivity | ].
    split; [apply ExactEq.list_eqb_eq; vm_compute; reflexivity | ].
    assert (Hfreq : load_freq (load_tau (F := xq))
                    = map (fun t => fdiv (of_int 1) (fmul (of_int 2) t)) load_tau).
    { unfold load_freq. apply map_ext. intros t. apply (ExactFacts.half_div t). }
    split; [exact Hfreq | ].
    intros d Ht Hf. unfold x_axis_of. rewrite Hf, Hfreq, map_map. reflexivity.
  - intros F H. split; [ | split; [ | split]].
    + intros f d. apply load_data_axes.
    + intros colors loadtxt self. apply update_plot_keeps_data.
    + reflexivity.
    + intros self u r rest Hu Hrow. eapply sim_N_found; eassumption.
Qed.

Lemma canonical_axes_witness :
  tau (Sample.loaded (F := float)) = load_tau
  /\ freq (Sample.loaded (F := float)) = load_freq load_tau
  /\ x_axis_of true lit_1e3 (Sample.loaded (F := float))
     = map (fun t => fdiv (fdiv (of_int 1) (fmul (of_int 2) t)) (of_int 1000))
           load_tau.
Proof.
  destruct canonical_axes as ((_ & _ & _ & _ & _ & Hx) & _ & Hgen).
  destruct (Hgen float binary64) as (Hload & _).
  destruct (Hload Sample.h5 Sample.loaded) as [Ht Hf].
  - vm_compute. reflexivity.
  - split; [exact Ht | ]. split; [exact Hf | ].
    apply Hx; assumption.
Defined.

(** * Further properties of the code *)

(** ** Strings: [split] undoes a join *)

Module Strings.

(** [c in s] *)
Fixpoint has_char (c : ascii) (s : string) : bool :=
  match s with
  | EmptyString => false
  | String x s' => Ascii.eqb x c || has_char c s'
  end.

Fixpoint count_char (c : ascii) (s : string) : nat :=
  match s with
  | EmptyString => O
  | String x s' => (if Ascii.eqb x c then 1 else 0) + count_char c s'
  end.

Lemma append_nil_r (s : string) : s ++ "" = s.
Proof. induction s as [ | x s IH]; simpl; congruence. Qed.

Lemma append_assoc (a b c : string) : (a ++ b) ++ c = a ++ (b ++ c).
Proof. induction a as [ | x a IH]; simpl; congruence. Qed.

Lemma has_char_append (c : ascii) (a b : string) :
  has_char c (a ++ b) = has_char c a || has_char c b.
Proof.
  induction a as [ | x a IH]; simpl; [reflexivity | ].
  rewrite IH. apply orb_assoc.
Qed.

Lemma starts_with_append (p s : string) : starts_with p (p ++ s) = true.
Proof.
  induction p as [ | x p IH]; simpl; [reflexivity | ].
  rewrite Ascii.eqb_refl. exact IH.
Qed.

Lemma drop_chars_append (p s : string) :
  drop_chars (String.length p) (p ++ s) = s.
Proof. induction p as [ | x p IH]; simpl; [reflexivity | exact IH]. Qed.

(** [(p + s).removeprefix(p) == s] *)
Lemma removeprefix_append (p s : string) : removeprefix p (p ++ s) = s.
Proof.
  unfold removeprefix. rewrite starts_with_append. apply drop_chars_append.
Qed.

(** Reading a piece that has no first character of the separator. *)
Lemma split_go_piece (c : ascii) (r a : string) :
  has_char c a = false ->
  forall t cur,
    split_go (String c r) (a ++ t) cur 0 = split_go (String c r) t (cur ++ a) 0.
Proof.
  induction a as [ | x a IH]; intros Hfree t cur.
  - simpl. rewrite append_nil_r. reflexivity.
  - simpl in Hfree. apply orb_false_iff in Hfree. destruct Hfree as [Hx Ha].
    change (String x a ++ t) with (String x (a ++ t)).
    simpl split_go. rewrite Ascii.eqb_sym, Hx. simpl.
    rewrite (IH Ha t).
    replace ((cur ++ String x "") ++ a) with (cur ++ String x a); [reflexivity | ].
    rewrite append_assoc. reflexivity.
Qed.

(** Dropping the rest of a separator that was matched. *)
Lemma split_go_skip (sep r : string) :
  forall t cur,
    split_go sep (r ++ t) cur (String.length r) = split_go sep t cur 0.
Proof.
  induction r as [ | x r IH]; intros t cur; simpl; [ | apply IH].
  destruct t; reflexivity.
Qed.

Lemma split_go_last (c : ascii) (r b cur : string) :
  has_char c b = false ->
  split_go (String c r) b cur 0 = [cur ++ b].
Proof.
  intros Hfree.
  rewrite <- (append_nil_r b) at 1.
  rewrite (@split_go_piece c r b Hfree). reflexivity.
Qed.

(** [(a + sep + b).split(sep) == [a, b]] when the first character of [sep]
    is in neither [a] nor [b]. *)
Lemma split_join (c : ascii) (r a b : string) :
  has_char c a = false ->
  has_char c b = false ->
  str_split (String c r) (a ++ String c r ++ b) = [a; b].
Proof.
  intros Ha Hb. unfold str_split.
  rewrite (@split_go_piece c r a Ha).
  change (String c r ++ b) with (String c (r ++ b)).
  simpl split_go.
  rewrite Ascii.eqb_refl, starts_with_append. simpl.
  rewrite Nat.sub_0_r, split_go_skip.
  rewrite (@split_go_last c r b "" Hb). reflexivity.
Qed.

(** With a one-character separator, there is one more piece than
    separators. *)
Lemma split_char_length (c : ascii) (s : string) :
  forall cur,
    List.length (split_go (String c "") s cur 0) = S (count_char c s).
Proof.
  induction s as [ | x s IH]; intros cur; simpl; [reflexivity | ].
  rewrite Ascii.eqb_sym.
  destruct (Ascii.eqb x c); simpl; rewrite IH; reflexivity.
Qed.

Lemma count_char_pos (c : ascii) (s : string) :
  has_char c s = true <-> (0 < count_char c s)%nat.
Proof.
  induction s as [ | x s IH]; simpl.
  - split; [discriminate | lia].
  - destruct (Ascii.eqb x c); simpl; [split; [lia | reflexivity] | exact IH].
Qed.

End Strings.

(** ** [load_data]: the dictionary of gyromagnetic ratios *)

Section LoadData.

Context {F : Type} `{Float64 F}.

Import Strings.

(** A substance name of the table: element, dash, mass number, with no
    further dash and no ["<"]. *)
Definition substance (el a : string) : string := el ++ "-" ++ a.

Definition plain (s : string) : Prop :=
  has_char "-" s = false /\ has_char "<" s = false.

Definition well_formed (name : string) : Prop :=
  exists el a, name = substance el a /\ plain el /\ plain a.

(** The key under which [load_data] files the ratio of [el-a]. *)
Definition rich_key (el a : string) : string := "<sup>" ++ a ++ "</sup>" ++ el.

Lemma split_substance (el a : string) :
  has_char "-" el = false -> has_char "-" a = false ->
  str_split "-" (substance el a) = [el; a].
Proof. intros Hel Ha. apply (@split_join "-" "" el a Hel Ha). Qed.

Lemma gyro_key_map_rich_key (el a : string) :
  has_char "<" el = false -> has_char "<" a = false ->
  gyro_key_map (rich_key el a) = [a; el].
Proof.
  intros Hel Ha. unfold gyro_key_map, rich_key.
  rewrite removeprefix_append.
  apply (@split_join "<" "/sup>" a el Ha Hel).
Qed.

Lemma rename_keys_cons (k : string) (v : F) items d t0 t1 rest :
  str_split "-" k = t0 :: t1 :: rest ->
  rename_keys ((k, v) :: items) d
  = rename_keys items (dict_set d ("<sup>" ++ t1 ++ "</sup>" ++ t0) v).
Proof.
  intros Hsplit. simpl. rewrite Hsplit, py_index_1, py_index_0. reflexivity.
Qed.

(** X1: for an element name and a mass number that contain neither a dash
    nor a ["<"], the renaming loop of [load_data] files the ratio of the
    substance [el-a] under the key [<sup>a</sup>el], and [gyro_key_map]
    takes that key apart again into the mass number and the element, the
    two pieces from which the label of a marker is built. *)
Theorem rich_key_round_trip (el a : string) (v : F) :
  plain el -> plain a ->
  rename_keys [(substance el a, v)] [] = inr [(rich_key el a, v)]
  /\ gyro_key_map (rich_key el a) = [a; el].
Proof.
  intros [Hel1 Hel2] [Ha1 Ha2]. split.
  - rewrite (@rename_keys_cons _ v [] [] el a []); [reflexivity | ].
    apply split_substance; assumption.
  - apply gyro_key_map_rich_key; assumption.
Qed.

(** *** Dictionaries *)

Lemma dict_set_keys V (d : list (string * V)) k v k' :
  In k' (map fst (dict_set d k v)) <-> In k' (map fst d) \/ k' = k.
Proof.
  induction d as [ | [k0 v0] d IH]; simpl.
  - intuition.
  - destruct (String.eqb k0 k) eqn:E; simpl.
    + apply String.eqb_eq in E. subst k0. intuition.
    + rewrite IH. intuition.
Qed.

Lemma dict_set_fresh V (d : list (string * V)) k v :
  ~ In k (map fst d) -> dict_set d k v = (d ++ [(k, v)])%list.
Proof.
  induction d as [ | [k0 v0] d IH]; simpl; intros Hnot; [reflexivity | ].
  destruct (String.eqb k0 k) eqn:E.
  - apply String.eqb_eq in E. exfalso. apply Hnot. left. exact E.
  - rewrite IH; [reflexivity | ]. intros Hin. apply Hnot. right. exact Hin.
Qed.

Lemma dict_get_in V (d : list (string * V)) k :
  In k (map fst d) -> exists v, dict_get d k = inr v.
Proof.
  induction d as [ | [k0 v0] d IH]; simpl; [contradiction | ].
  intros [Heq | Hin].
  - subst k0. rewrite String.eqb_refl. exists v0. reflexivity.
  - destruct (String.eqb k0 k); [exists v0; reflexivity | apply IH; exact Hin].
Qed.

Lemma dict_get_nodup V (d : list (string * V)) k v :
  NoDup (map fst d) -> In (k, v) d -> dict_get d k = inr v.
Proof.
  induction d as [ | [k0 v0] d IH]; simpl; [contradiction | ].
  intros Hnd [Heq | Hin].
  - injection Heq as -> ->. rewrite String.eqb_refl. reflexivity.
  - inversion Hnd as [ | ? ? Hnot Hnd']; subst.
    destruct (String.eqb k0 k) eqn:E.
    + apply String.eqb_eq in E. subst k0. exfalso. apply Hnot.
      apply in_map_iff. exists (k, v). split; [reflexivity | exact Hin].
    + apply IH; assumption.
Qed.

Lemma dict_get_missing V (d : list (string * V)) k :
  ~ In k (map fst d) -> dict_get d k = inl KeyError.
Proof.
  induction d as [ | [k0 v0] d IH]; simpl; intros Hnot; [reflexivity | ].
  destruct (String.eqb k0 k) eqn:E.
  - apply String.eqb_eq in E. exfalso. apply Hnot. left. exact E.
  - apply IH. intros Hin. apply Hnot. right. exact Hin.
Qed.

(** Filing pairs with distinct new keys appends them in order. *)
Lemma fold_dict_set_fresh V (items : list (string * V)) :
  forall d,
    NoDup (map fst d ++ map fst items) ->
    fold_left (fun d kv => dict_set d (fst kv) (snd kv)) items d
    = (d ++ items)%list.
Proof.
  induction items as [ | [k v] items IH]; intros d Hnd; simpl.
  - rewrite app_nil_r. reflexivity.
  - rewrite dict_set_fresh.
    + rewrite IH.
      * rewrite <- app_assoc. reflexivity.
      * rewrite map_app. simpl. rewrite <- app_assoc. exact Hnd.
    + intros Hin. simpl in Hnd. apply NoDup_remove_2 in Hnd.
      apply Hnd. apply in_or_app. left. exact Hin.
Qed.

Lemma fold_dict_set_keys V (items : list (string * V)) :
  forall d k,
    In k (map fst (fold_left (fun d kv => dict_set d (fst kv) (snd kv)) items d))
    <-> In k (map fst d) \/ In k (map fst items).
Proof.
  induction items as [ | [k0 v0] items IH]; intros d k; simpl.
  - intuition.
  - rewrite IH, dict_set_keys. intuition.
Qed.

(** *** When [load_data] raises *)

Lemma py_index_out_of_range A (l : list A) (i : Z) :
  (Z.of_nat (List.length l) <= i)%Z -> py_index l i = inl IndexError.
Proof.
  intros Hi. unfold py_index. cbv zeta.
  assert (E1 : (i <? 0)%Z = false) by (apply Z.ltb_ge; lia).
  rewrite E1. cbv iota.
  assert (E2 : (Z.of_nat (List.length l) <=? i)%Z = true) by (apply Z.leb_le; lia).
  rewrite E1, E2. reflexivity.
Qed.

Lemma split_dash_pieces (k : string) :
  has_char "-" k = true ->
  exists t0 t1 rest, str_split "-" k = t0 :: t1 :: rest.
Proof.
  intros Hdash. apply count_char_pos in Hdash.
  pose proof (@split_char_length "-" k "") as Hlen.
  fold (str_split "-" k) in Hlen.
  destruct (str_split "-" k) as [ | t0 [ | t1 rest]]; simpl in Hlen; try lia.
  exists t0, t1, rest. reflexivity.
Qed.

Lemma split_no_dash (k : string) :
  has_char "-" k = false -> List.length (str_split "-" k) = 1%nat.
Proof.
  intros Hdash. unfold str_split. rewrite split_char_length.
  destruct (count_char "-" k) eqn:E; [reflexivity | ].
  assert (Hpos : has_char "-" k = true) by (apply count_char_pos; lia).
  congruence.
Qed.

Lemma rename_keys_total (items : list (string * F)) :
  (forall kv, In kv items -> has_char "-" (fst kv) = true) ->
  forall d, exists g, rename_keys items d = inr g.
Proof.
  induction items as [ | [k v] items IH]; intros Hall d.
  - exists d. reflexivity.
  - destruct (@split_dash_pieces k) as (t0 & t1 & rest & Hsplit).
    { apply (Hall (k, v)). left. reflexivity. }
    rewrite (@rename_keys_cons k v items d t0 t1 rest Hsplit).
    apply IH. intros kv Hin. apply Hall. right. exact Hin.
Qed.

Lemma rename_keys_fails (items : list (string * F)) :
  (exists kv, In kv items /\ has_char "-" (fst kv) = false) ->
  forall d, rename_keys items d = inl IndexError.
Proof.
  induction items as [ | [k v] items IH]; intros (kv & Hin & Hno) d.
  - contradiction.
  - destruct (has_char "-" k) eqn:Hk.
    + destruct (@split_dash_pieces k Hk) as (t0 & t1 & rest & Hsplit).
      rewrite (@rename_keys_cons k v items d t0 t1 rest Hsplit).
      apply IH. destruct Hin as [Heq | Hin].
      * subst kv. simpl in Hno. congruence.
      * exists kv. split; assumption.
    + simpl. rewrite (@py_index_out_of_range _ (str_split "-" k) 1).
      * reflexivity.
      * rewrite (@split_no_dash k Hk). simpl. lia.
Qed.

(** X2: [load_data] builds its dictionary whenever every substance name of
    the table contains a dash, and raises [IndexError], at [temp_part[1]],
    as soon as one name contains none. *)
Theorem load_data_raises_on_undashed_name (f : h5file (F := F)) :
  ((forall kv, In kv (gyro_table f) -> has_char "-" (fst kv) = true) ->
   exists d, load_data f = inr d)
  /\ ((exists kv, In kv (gyro_table f) /\ has_char "-" (fst kv) = false) ->
      load_data f = inl IndexError).
Proof.
  split.
  - intros Hall.
    destruct (@rename_keys_total (gyromagnetic_ratios_raw f)) with (d := @nil (string * F))
      as [g Hg].
    { intros [k v] Hin. simpl.
      assert (Hk : In k (map fst (gyromagnetic_ratios_raw f))).
      { apply in_map_iff. exists (k, v). split; [reflexivity | exact Hin]. }
      apply fold_dict_set_keys in Hk. destruct Hk as [[] | Hk].
      apply in_map_iff in Hk. destruct Hk as (kv & <- & Hkv).
      apply Hall. exact Hkv. }
    unfold load_data. rewrite Hg. eexists. reflexivity.
  - intros (kv & Hin & Hno).
    unfold load_data. rewrite rename_keys_fails; [reflexivity | ].
    assert (Hk : In (fst kv) (map fst (gyromagnetic_ratios_raw f))).
    { apply fold_dict_set_keys. right. apply in_map. exact Hin. }
    apply in_map_iff in Hk. destruct Hk as (kv' & Heq & Hin').
    exists kv'. split; [exact Hin' | ]. rewrite Heq. exact Hno.
Qed.

(** *** What [load_data] files *)

(** The key built in the loop body, as a function of the substance name. *)
Definition rich (k : string) : string :=
  match str_split "-" k with
  | t0 :: t1 :: _ => "<sup>" ++ t1 ++ "</sup>" ++ t0
  | _ => ""
  end.

Definition enrich (kv : string * F) : string * F := (rich (fst kv), snd kv).

Lemma rich_substance (el a : string) :
  plain el -> plain a -> rich (substance el a) = rich_key el a.
Proof.
  intros [Hel _] [Ha _]. unfold rich.
  rewrite (@split_substance el a Hel Ha). reflexivity.
Qed.

Lemma rich_injective (k1 k2 : string) :
  well_formed k1 -> well_formed k2 -> rich k1 = rich k2 -> k1 = k2.
Proof.
  intros (el1 & a1 & -> & Hel1 & Ha1) (el2 & a2 & -> & Hel2 & Ha2) Heq.
  rewrite !rich_substance in Heq by assumption.
  apply (f_equal gyro_key_map) in Heq.
  rewrite !gyro_key_map_rich_key in Heq
    by (first [apply Hel1 | apply Ha1 | apply Hel2 | apply Ha2]).
  injection Heq as -> ->. reflexivity.
Qed.

Lemma NoDup_map_on A B (g : A -> B) (l : list A) :
  (forall x y, In x l -> In y l -> g x = g y -> x = y) ->
  NoDup l -> NoDup (map g l).
Proof.
  intros Hinj Hnd. induction Hnd as [ | x l Hnot Hnd IH]; simpl.
  - constructor.
  - constructor.
    + intros Hin. apply in_map_iff in Hin. destruct Hin as (y & Heq & Hy).
      apply Hnot. rewrite (Hinj x y); [exact Hy | left; reflexivity | right; exact Hy | ].
      symmetry. exact Heq.
    + apply IH. intros a b Ha Hb. apply Hinj; right; assumption.
Qed.

Lemma rename_keys_fold (items : list (string * F)) :
  (forall kv, In kv items -> has_char "-" (fst kv) = true) ->
  forall d,
    rename_keys items d
    = inr (fold_left (fun d kv => dict_set d (fst kv) (snd kv)) (map enrich items) d).
Proof.
  induction items as [ | [k v] items IH]; intros Hall d.
  - reflexivity.
  - destruct (@split_dash_pieces k) as (t0 & t1 & rest & Hsplit).
    { apply (Hall (k, v)). left. reflexivity. }
    rewrite (@rename_keys_cons k v items d t0 t1 rest Hsplit).
    rewrite IH by (intros kv Hin; apply Hall; right; exact Hin).
    assert (Hr : rich k = "<sup>" ++ t1 ++ "</sup>" ++ t0).
    { unfold rich. rewrite Hsplit. reflexivity. }
    change (map enrich ((k, v) :: items)) with ((rich k, v) :: map enrich items).
    simpl fold_left. rewrite Hr. reflexivity.
Qed.

Lemma well_formed_dash (k : string) : well_formed k -> has_char "-" k = true.
Proof.
  intros (el & a & -> & _ & _). unfold substance.
  rewrite has_char_append. simpl. apply orb_true_r.
Qed.

(** One entry of the table and the entry filed for it. *)
Definition filed (kv kv' : string * F) : Prop :=
  snd kv' = snd kv
  /\ exists el a, fst kv = substance el a /\ plain el /\ plain a
                  /\ fst kv' = rich_key el a.

Lemma filed_enrich (items : list (string * F)) :
  Forall well_formed (map fst items) -> Forall2 filed items (map enrich items).
Proof.
  induction items as [ | [k v] items IH]; simpl; intros Hwf.
  - constructor.
  - inversion Hwf as [ | ? ? Hk Hwf']; subst.
    destruct Hk as (el & a & Heq & Hel & Ha). subst k.
    constructor; [ | apply IH; exact Hwf'].
    split; [reflexivity | ].
    exists el, a. simpl. rewrite (rich_substance Hel Ha).
    repeat split; solve [apply Hel | apply Ha].
Qed.

(** X3: for a table of distinct substance names of the form [el-a],
    [load_data] returns a dictionary with one entry per row of the table, in
    the order of the table, each holding the value of its row under the key
    [<sup>a</sup>el]; every ratio of the table is found again under its key,
    and the key splits back into mass number and element. *)
Theorem load_data_files_every_ratio (f : h5file (F := F)) :
  Forall well_formed (map fst (gyro_table f)) ->
  NoDup (map fst (gyro_table f)) ->
  exists d,
    load_data f = inr d
    /\ Forall2 filed (gyro_table f) (gyromagnetic_ratios d)
    /\ (forall el a v,
          plain el -> plain a ->
          In (substance el a, v) (gyro_table f) ->
          dict_get (gyromagnetic_ratios d) (rich_key el a) = inr v
          /\ gyro_key_map (rich_key el a) = [a; el]).
Proof.
  intros Hwf Hnd.
  assert (Hraw : gyromagnetic_ratios_raw f = gyro_table f).
  { unfold gyromagnetic_ratios_raw. rewrite fold_dict_set_fresh; [reflexivity | exact Hnd]. }
  assert (Hkeys : NoDup (map fst (map enrich (gyro_table f)))).
  { rewrite map_map. simpl.
    rewrite <- (map_map fst rich).
    apply NoDup_map_on; [ | exact Hnd].
    intros k1 k2 H1 H2. rewrite Forall_forall in Hwf.
    apply rich_injective; apply Hwf; assumption. }
  assert (Hrename : rename_keys (gyromagnetic_ratios_raw f) []
                    = inr (map enrich (gyro_table f))).
  { rewrite Hraw, rename_keys_fold.
    - rewrite fold_dict_set_fresh; [reflexivity | exact Hkeys].
    - intros kv Hin. apply well_formed_dash.
      rewrite Forall_forall in Hwf. apply Hwf. apply in_map. exact Hin. }
  unfold load_data. rewrite Hrename.
  eexists. split; [reflexivity | ]. simpl. split.
  - apply filed_enrich. exact Hwf.
  - intros el a v Hel Ha Hin. split.
    + apply dict_get_nodup; [exact Hkeys | ].
      apply in_map_iff. exists (substance el a, v). split; [ | exact Hin].
      unfold enrich. simpl. rewrite rich_substance by assumption. reflexivity.
    + apply gyro_key_map_rich_key; [apply Hel | apply Ha].
Qed.

End LoadData.

(** ** The marker loop: labels of the loaded table, and too many of them *)

Section MarkerEdges.

Context {F : Type} `{Float64 F}.
Variable colors : list string.

Import Strings.

Local Open Scope py_scope.

(** One pass of the loop body, up to the colour lookup. *)
Lemma gyro_lines_N_step idx val rest (self : app F) g u l0 l1 tl :
  dict_get (gyromagnetic_ratios (data self)) val = inr g ->
  py_index unit_list (unit_btngrp_N (tabN self)) = inr u ->
  gyro_key_map val = l0 :: l1 :: tl ->
  gyro_lines_N colors idx (val :: rest) self
  = match py_index colors (Z.of_nat idx + 1) with
    | inl e => (inl e, self)
    | inr c =>
        gyro_lines_N colors (S idx) rest
          (snd (ax_add (VLine (marker_pos g u (B0_widget_N (tabN self))
                                          (radio2_N (tabN self)))
                              ("$^{" ++ l0 ++ "}$" ++ l1) c) self))
    end.
Proof.
  intros Hg Hu Hl. simpl gyro_lines_N. unfold bind, get, lift.
  rewrite Hg, Hu, Hl, py_index_0, py_index_1.
  destruct (py_index colors (Z.of_nat idx + 1)); reflexivity.
Qed.

Lemma gyro_lines_C_step idx val rest (self : app F) g u l0 l1 tl :
  dict_get (gyromagnetic_ratios (data self)) val = inr g ->
  py_index unit_list (unit_btngrp_C (tabC self)) = inr u ->
  gyro_key_map val = l0 :: l1 :: tl ->
  gyro_lines_C colors idx (val :: rest) self
  = match py_index colors (Z.of_nat idx + 1) with
    | inl e => (inl e, self)
    | inr c =>
        gyro_lines_C colors (S idx) rest
          (snd (ax_add (VLine (marker_pos g u (B0_widget_C (tabC self))
                                          (radio2_C (tabC self)))
                              ("$^{" ++ l0 ++ "}$" ++ l1) c) self))
    end.
Proof.
  intros Hg Hu Hl. simpl gyro_lines_C. unfold bind, get, lift.
  rewrite Hg, Hu, Hl, py_index_0, py_index_1.
  destruct (py_index colors (Z.of_nat idx + 1)); reflexivity.
Qed.

Lemma gyro_lines_N_overflow vals :
  forall idx (self : app F) u,
    py_index unit_list (unit_btngrp_N (tabN self)) = inr u ->
    Forall (label_ok (gyromagnetic_ratios (data self))) vals ->
    vals <> [] ->
    (List.length colors <= idx + List.length vals)%nat ->
    exists lines,
      gyro_lines_N colors idx vals self = (inl IndexError, add_artists lines self)
      /\ List.length lines = (List.length colors - (idx + 1))%nat
      /\ Forall2 (marker_at (gyromagnetic_ratios (data self))
                    (fun g => marker_pos g u (B0_widget_N (tabN self))
                                         (radio2_N (tabN self))))
                 (firstn (List.length colors - (idx + 1)) vals) lines.
Proof.
  induction vals as [ | val rest IH]; intros idx self u Hu Hok Hne Hlen;
    [contradiction | ].
  inversion Hok as [ | ? ? [[g Hg] (l0 & l1 & tl & Hl)] Hrest]; subst.
  rewrite (@gyro_lines_N_step idx val rest self g u l0 l1 tl Hg Hu Hl).
  destruct (Nat.lt_ge_cases (idx + 1) (List.length colors)) as [Hin | Hout].
  - destruct (@py_index_in_range _ colors (Z.of_nat idx + 1)) as [c Hc]; [lia | ].
    rewrite Hc.
    set (line := VLine _ _ c).
    destruct (IH (S idx) (snd (ax_add line self)) u) as (lines & Hrun & Hn & Hall).
    + exact Hu.
    + exact Hrest.
    + intros ->. simpl in Hlen. lia.
    + simpl in Hlen. simpl. lia.
    + exists (line :: lines). split; [ | split].
      * rewrite Hrun, add_artists_cons. reflexivity.
      * simpl. rewrite Hn. simpl. lia.
      * replace (List.length colors - (idx + 1))%nat
          with (S (List.length colors - (S idx + 1)))%nat by lia.
        simpl firstn. constructor; [ | exact Hall].
        exists g, ("$^{" ++ l0 ++ "}$" ++ l1), c. split; [exact Hg | reflexivity].
  - rewrite (@py_index_out_of_range _ colors (Z.of_nat idx + 1)) by lia.
    exists []. rewrite add_artists_nil.
    replace (List.length colors - (idx + 1))%nat with 0%nat by lia.
    repeat split. constructor.
Qed.

Lemma gyro_lines_C_overflow vals :
  forall idx (self : app F) u,
    py_index unit_list (unit_btngrp_C (tabC self)) = inr u ->
    Forall (label_ok (gyromagnetic_ratios (data self))) vals ->
    vals <> [] ->
    (List.length colors <= idx + List.length vals)%nat ->
    exists lines,
      gyro_lines_C colors idx vals self = (inl IndexError, add_artists lines self)
      /\ List.length lines = (List.length colors - (idx + 1))%nat
      /\ Forall2 (marker_at (gyromagnetic_ratios (data self))
                    (fun g => marker_pos g u (B0_widget_C (tabC self))
                                         (radio2_C (tabC self))))
                 (firstn (List.length colors - (idx + 1)) vals) lines.
Proof.
  induction vals as [ | val rest IH]; intros idx self u Hu Hok Hne Hlen;
    [contradiction | ].
  inversion Hok as [ | ? ? [[g Hg] (l0 & l1 & tl & Hl)] Hrest]; subst.
  rewrite (@gyro_lines_C_step idx val rest self g u l0 l1 tl Hg Hu Hl).
  destruct (Nat.lt_ge_cases (idx + 1) (List.length colors)) as [Hin | Hout].
  - destruct (@py_index_in_range _ colors (Z.of_nat idx + 1)) as [c Hc]; [lia | ].
    rewrite Hc.
    set (line := VLine _ _ c).
    destruct (IH (S idx) (snd (ax_add line self)) u) as (lines & Hrun & Hn & Hall).
    + exact Hu.
    + exact Hrest.
    + intros ->. simpl in Hlen. lia.
    + simpl in Hlen. simpl. lia.
    + exists (line :: lines). split; [ | split].
      * rewrite Hrun, add_artists_cons. reflexivity.
      * simpl. rewrite Hn. simpl. lia.
      * replace (List.length colors - (idx + 1))%nat
          with (S (List.length colors - (S idx + 1)))%nat by lia.
        simpl firstn. constructor; [ | exact Hall].
        exists g, ("$^{" ++ l0 ++ "}$" ++ l1), c. split; [exact Hg | reflexivity].
  - rewrite (@py_index_out_of_range _ colors (Z.of_nat idx + 1)) by lia.
    exists []. rewrite add_artists_nil.
    replace (List.length colors - (idx + 1))%nat with 0%nat by lia.
    repeat split. constructor.
Qed.

(** X4: with a field that is not zero, a valid unit index and at least as
    many selected labels as there are colours, the marker loop of either
    method raises [IndexError] at [colors[idx + 1]], after it has drawn the
    markers of the first [len(colors) - 1] labels, which stay on the
    axes. *)
Theorem too_many_labels_raise (self : app F) :
  (forall u,
     feqb (B0_widget_N (tabN self)) (of_int 0) = false ->
     py_index unit_list (unit_btngrp_N (tabN self)) = inr u ->
     Forall (label_ok (gyromagnetic_ratios (data self)))
            (gyromagnetic_widget_N (tabN self)) ->
     gyromagnetic_widget_N (tabN self) <> [] ->
     (List.length colors <= List.length (gyromagnetic_widget_N (tabN self)))%nat ->
     exists lines,
       markers_N colors self = (inl IndexError, add_artists lines self)
       /\ List.length lines = (List.length colors - 1)%nat
       /\ Forall2 (marker_at (gyromagnetic_ratios (data self))
                     (fun g => marker_pos g u (B0_widget_N (tabN self))
                                          (radio2_N (tabN self))))
                  (firstn (List.length colors - 1)
                          (gyromagnetic_widget_N (tabN self))) lines)
  /\ (forall u,
        feqb (B0_widget_C (tabC self)) (of_int 0) = false ->
        py_index unit_list (unit_btngrp_C (tabC self)) = inr u ->
        Forall (label_ok (gyromagnetic_ratios (data self)))
               (gyromagnetic_widget_C (tabC self)) ->
        gyromagnetic_widget_C (tabC self) <> [] ->
        (List.length colors <= List.length (gyromagnetic_widget_C (tabC self)))%nat ->
        exists lines,
          markers_C colors self = (inl IndexError, add_artists lines self)
          /\ List.length lines = (List.length colors - 1)%nat
          /\ Forall2 (marker_at (gyromagnetic_ratios (data self))
                        (fun g => marker_pos g u (B0_widget_C (tabC self))
                                             (radio2_C (tabC self))))
                     (firstn (List.length colors - 1)
                             (gyromagnetic_widget_C (tabC self))) lines).
Proof.
  split; intros u Hz Hu Hok Hne Hlen.
  - unfold markers_N, bind, get. rewrite Hz. simpl negb. cbv iota.
    apply (@gyro_lines_N_overflow _ 0 self u Hu Hok Hne Hlen).
  - unfold markers_C, bind, get. rewrite Hz. simpl negb. cbv iota.
    apply (@gyro_lines_C_overflow _ 0 self u Hu Hok Hne Hlen).
Qed.

(** Every key that [load_data] files can be looked up and read back as a
    label. *)
Lemma loaded_keys_ok (f : h5file (F := F)) (d : dataset F) :
  Forall well_formed (map fst (gyro_table f)) ->
  load_data f = inr d ->
  forall k, In k (map fst (gyromagnetic_ratios d)) ->
            label_ok (gyromagnetic_ratios d) k.
Proof.
  intros Hwf Hload k Hk. rewrite Forall_forall in Hwf.
  assert (Hdash : forall kv, In kv (gyromagnetic_ratios_raw f) ->
                             has_char "-" (fst kv) = true).
  { intros kv Hin. apply well_formed_dash. apply Hwf.
    assert (Hin' : In (fst kv) (map fst (gyromagnetic_ratios_raw f)))
      by (apply in_map; exact Hin).
    apply fold_dict_set_keys in Hin'. destruct Hin' as [[] | Hin']. exact Hin'. }
  unfold load_data in Hload. rewrite (rename_keys_fold _ Hdash) in Hload.
  injection Hload as <-. simpl in Hk |- *.
  split; [apply dict_get_in; exact Hk | ].
  apply fold_dict_set_keys in Hk. destruct Hk as [[] | Hk].
  rewrite map_map in Hk. apply in_map_iff in Hk.
  destruct Hk as (kv & <- & Hkv). simpl.
  assert (Hkv' : In (fst kv) (map fst (gyromagnetic_ratios_raw f)))
    by (apply in_map; exact Hkv).
  apply fold_dict_set_keys in Hkv'. destruct Hkv' as [[] | Hkv'].
  destruct (Hwf _ Hkv') as (el & a & -> & Hel & Ha).
  rewrite (rich_substance Hel Ha).
  exists a, el, []. apply gyro_key_map_rich_key; [apply Hel | apply Ha].
Qed.

(** X12: every key of the dictionary that [load_data] builds from a table
    of names of the form [el-a] can be drawn: with a field that is not zero,
    a valid unit index, a selection made of keys of the dictionary and fewer
    labels than colours, the marker code of either method returns normally
    with one line per selected label. *)
Theorem loaded_labels_are_drawn (f : h5file (F := F)) (self : app F) :
  Forall well_formed (map fst (gyro_table f)) ->
  load_data f = inr (data self) ->
  (forall u,
     feqb (B0_widget_N (tabN self)) (of_int 0) = false ->
     py_index unit_list (unit_btngrp_N (tabN self)) = inr u ->
     incl (gyromagnetic_widget_N (tabN self))
          (map fst (gyromagnetic_ratios (data self))) ->
     (List.length (gyromagnetic_widget_N (tabN self)) < List.length colors)%nat ->
     exists lines,
       markers_N colors self = (inr tt, add_artists lines self)
       /\ List.length lines = List.length (gyromagnetic_widget_N (tabN self)))
  /\ (forall u,
        feqb (B0_widget_C (tabC self)) (of_int 0) = false ->
        py_index unit_list (unit_btngrp_C (tabC self)) = inr u ->
        incl (gyromagnetic_widget_C (tabC self))
             (map fst (gyromagnetic_ratios (data self))) ->
        (List.length (gyromagnetic_widget_C (tabC self)) < List.length colors)%nat ->
        exists lines,
          markers_C colors self = (inr tt, add_artists lines self)
          /\ List.length lines = List.length (gyromagnetic_widget_C (tabC self))).
Proof.
  intros Hwf Hload.
  pose proof (loaded_keys_ok f Hwf Hload) as Hkeys.
  split; intros u Hz Hu Hincl Hlen.
  - destruct (@markers_N_run _ _ colors self u Hz Hu) as (lines & Hrun & Hall).
    + apply Forall_forall. intros val Hval. apply Hkeys. apply Hincl. exact Hval.
    + exact Hlen.
    + exists lines. split; [exact Hrun | ].
      symmetry. eapply Forall2_length. exact Hall.
  - destruct (@markers_C_run _ _ colors self u Hz Hu) as (lines & Hrun & Hall).
    + apply Forall_forall. intros val Hval. apply Hkeys. apply Hincl. exact Hval.
    + exact Hlen.
    + exists lines. split; [exact Hrun | ].
      symmetry. eapply Forall2_length. exact Hall.
Qed.

End MarkerEdges.

(** ** The overlay stage: arrays it cannot use *)

Section OverlayEdges.

Context {F : Type} `{Float64 F}.
Variable colors : list string.
Variable loadtxt : string -> exn + ndarray F.

Local Open Scope py_scope.

(** A two-dimensional array with both columns and at least one row: the
    overlay code gets as far as [np.max(XY8)]. *)
Definition usable (exp_data : ndarray F) : Prop :=
  exists x y m,
    column 0 exp_data = inr x /\ column 1 exp_data = inr y /\ py_min y = inr m.

Lemma expt_N_no_reference (self : app F) exp_data (XY8 : local F (n15_row F)) e :
  overlay_on_N self ->
  loadtxt (expt_filename_N (tabN self)) = inr exp_data ->
  usable exp_data ->
  np_max_local XY8 = inl e ->
  expt_N loadtxt XY8 self = (inl e, self).
Proof.
  intros Hon Hload (x & y & m & Hx & Hy & Hm) Hmax.
  unfold expt_N, bind, get, lift.
  rewrite (overlay_test_N Hon), Hload, Hy, Hm, Hx, Hmax. reflexivity.
Qed.

Lemma expt_C_no_reference (self : app F) exp_data (XY8 : local F (c13_row F)) e :
  overlay_on_C self ->
  loadtxt (expt_filename_C (tabC self)) = inr exp_data ->
  usable exp_data ->
  np_max_local XY8 = inl e ->
  expt_C loadtxt XY8 self = (inl e, self).
Proof.
  intros Hon Hload (x & y & m & Hx & Hy & Hm) Hmax.
  unfold expt_C, bind, get, lift.
  rewrite (overlay_test_C Hon), Hload, Hy, Hm, Hx, Hmax. reflexivity.
Qed.

(** X5: with the overlay enabled on a file that loads into an array with
    two columns and at least one row, a render whose last lookup found no
    row raises at [np.max(XY8)]: [update_plot_N] after it has drawn the
    placeholder, [update_plot_C] after it has drawn the artists of all the
    families.  With no family selected [update_plot_C] raises
    [UnboundLocalError] on the cleared axes, since [XY8] was never bound. *)
Theorem overlay_without_reference_raises (self : app F) (exp_data : ndarray F) :
  usable exp_data ->
  (overlay_on_N self ->
   loadtxt (expt_filename_N (tabN self)) = inr exp_data ->
   read_where_N self = [] ->
   exists e,
     update_plot_N colors loadtxt self
     = (inl e, add_artists [Text no_data_text] (cleared self)))
  /\ (forall u fams fam,
        overlay_on_C self ->
        loadtxt (expt_filename_C (tabC self)) = inr exp_data ->
        py_index unit_list (unit_btngrp_C (tabC self)) = inr u ->
        families_widget (tabC self) = (fams ++ [fam])%list ->
        read_where_C self fam = [] ->
        exists e,
          update_plot_C colors loadtxt self
          = (inl e,
             add_artists (map (family_artist self u) (fams ++ [fam]))
                         (cleared self)))
  /\ (overlay_on_C self ->
      loadtxt (expt_filename_C (tabC self)) = inr exp_data ->
      families_widget (tabC self) = [] ->
      update_plot_C colors loadtxt self = (inl UnboundLocalError, cleared self)).
Proof.
  intros Huse. split; [ | split].
  - intros Hon Hload Hrow. exists TypeError.
    rewrite update_plot_N_unfold.
    rewrite (@sim_N_not_found _ _ (cleared self) Hrow).
    rewrite (@expt_N_no_reference _ exp_data (Rows []) TypeError);
      [reflexivity | exact Hon | exact Hload | exact Huse | reflexivity].
  - intros u fams fam Hon Hload Hu Hsel Hrow. exists TypeError.
    assert (Hlast : last (map (family_XY8 (cleared self))
                              (families_widget (tabC (cleared self)))) Unbound
                    = Rows []).
    { change (families_widget (tabC (cleared self)))
        with (families_widget (tabC self)).
      rewrite Hsel, map_app. simpl map. rewrite last_last.
      unfold family_XY8.
      change (read_where_C (cleared self) fam) with (read_where_C self fam).
      rewrite Hrow. reflexivity. }
    rewrite update_plot_C_unfold.
    rewrite (@sim_C_run _ _ (cleared self) u Hu), Hlast.
    rewrite (@expt_C_no_reference _ exp_data (Rows []) TypeError);
      [ | exact Hon | exact Hload | exact Huse | reflexivity].
    rewrite <- Hsel. reflexivity.
  - intros Hon Hload Hsel.
    rewrite update_plot_C_unfold.
    unfold sim_C, bind, get.
    change (families_widget (tabC (cleared self)))
      with (families_widget (tabC self)).
    rewrite Hsel. simpl sim_C_loop. unfold ret.
    rewrite (@expt_C_no_reference _ exp_data Unbound UnboundLocalError);
      [reflexivity | exact Hon | exact Hload | exact Huse | reflexivity].
Qed.

Lemma expt_N_one_dimensional (self : app F) v (XY8 : local F (n15_row F)) :
  overlay_on_N self ->
  loadtxt (expt_filename_N (tabN self)) = inr (Arr1 v) ->
  expt_N loadtxt XY8 self = (inl IndexError, self).
Proof.
  intros Hon Hload. unfold expt_N, bind, get, lift.
  rewrite (overlay_test_N Hon), Hload. reflexivity.
Qed.

Lemma expt_C_one_dimensional (self : app F) v (XY8 : local F (c13_row F)) :
  overlay_on_C self ->
  loadtxt (expt_filename_C (tabC self)) = inr (Arr1 v) ->
  expt_C loadtxt XY8 self = (inl IndexError, self).
Proof.
  intros Hon Hload. unfold expt_C, bind, get, lift.
  rewrite (overlay_test_C Hon), Hload. reflexivity.
Qed.

(** X6: an overlay file that [np.loadtxt] returns as a one-dimensional
    array, as it does for a file of one line, makes either method raise
    [IndexError] at [exp_data[:, 1]], after the artists of the simulation
    were drawn. *)
Theorem one_dimensional_overlay_raises (self : app F) (v : list F) :
  (forall u,
     overlay_on_N self ->
     loadtxt (expt_filename_N (tabN self)) = inr (Arr1 v) ->
     py_index unit_list (unit_btngrp_N (tabN self)) = inr u ->
     exists a,
       update_plot_N colors loadtxt self
       = (inl IndexError, add_artists [a] (cleared self))
       /\ sim_artist a)
  /\ (forall u,
        overlay_on_C self ->
        loadtxt (expt_filename_C (tabC self)) = inr (Arr1 v) ->
        py_index unit_list (unit_btngrp_C (tabC self)) = inr u ->
        update_plot_C colors loadtxt self
        = (inl IndexError,
           add_artists (map (family_artist self u) (families_widget (tabC self)))
                       (cleared self))).
Proof.
  split; intros u Hon Hload Hu.
  - rewrite update_plot_N_unfold.
    destruct (read_where_N (cleared self)) as [ | r rest] eqn:Hrow.
    + rewrite (@sim_N_not_found _ _ (cleared self) Hrow).
      rewrite (@expt_N_one_dimensional _ v); [ | exact Hon | exact Hload].
      eexists. split; [reflexivity | exact I].
    + rewrite (@sim_N_found _ _ (cleared self) u r rest Hu Hrow).
      rewrite (@expt_N_one_dimensional _ v); [ | exact Hon | exact Hload].
      eexists. split; [reflexivity | exact I].
  - rewrite update_plot_C_unfold.
    rewrite (@sim_C_run _ _ (cleared self) u Hu).
    rewrite (@expt_C_one_dimensional _ v); [reflexivity | exact Hon | exact Hload].
Qed.

End OverlayEdges.

(** ** Redraw count and [plot_ready] *)

Section Counters.

Context {F : Type} `{Float64 F}.
Variable colors : list string.
Variable loadtxt : string -> exn + ndarray F.

Local Open Scope py_scope.

(** [canvas.draw()] calls so far, and [self.plot_ready]. *)
Definition counters (s : app F) : nat * bool :=
  (draws (fig s), plot_ready (fig s)).

Definition keeps_counters {A} (m : M (app F) A) : Prop :=
  forall s, counters (snd (m s)) = counters s.

Lemma kc_ret A (a : A) : keeps_counters (ret a).
Proof. intros s. reflexivity. Qed.

Lemma kc_lift A (r : exn + A) : keeps_counters (lift r).
Proof. intros s. reflexivity. Qed.

Lemma kc_get : keeps_counters (@get (app F)).
Proof. intros s. reflexivity. Qed.

Lemma kc_bind A B (m : M (app F) A) (k : A -> M (app F) B) :
  keeps_counters m -> (forall a, keeps_counters (k a)) -> keeps_counters (bind m k).
Proof.
  intros Hm Hk s. unfold bind.
  specialize (Hm s). destruct (m s) as [[e | a] s1]; simpl in *.
  - exact Hm.
  - rewrite Hk. exact Hm.
Qed.

Lemma kc_if A (b : bool) (m1 m2 : M (app F) A) :
  keeps_counters m1 -> keeps_counters m2 -> keeps_counters (if b then m1 else m2).
Proof. destruct b; auto. Qed.

Lemma kc_ax_add a : keeps_counters (ax_add (F := F) a).
Proof. intros s. reflexivity. Qed.

Lemma kc_box_exec b : keeps_counters (box_exec (F := F) b).
Proof. intros s. reflexivity. Qed.

Lemma kc_ax_clear : keeps_counters (ax_clear (F := F)).
Proof. intros s. reflexivity. Qed.

Ltac kc_step :=
  first [ apply kc_bind; [ | intro ]
        | apply kc_if
        | apply kc_ret | apply kc_lift | apply kc_get
        | apply kc_ax_add | apply kc_box_exec | apply kc_ax_clear ].

Lemma kc_sim_N : keeps_counters (sim_N (F := F)).
Proof.
  unfold sim_N. kc_step; [kc_step | ].
  destruct (read_where_N a); repeat kc_step.
Qed.

Lemma kc_expt_N XY8 : keeps_counters (expt_N loadtxt XY8).
Proof. unfold expt_N. repeat kc_step. Qed.

Lemma kc_gyro_lines_N vals : forall idx, keeps_counters (gyro_lines_N colors idx vals).
Proof.
  induction vals as [ | val rest IH]; intros idx; simpl.
  - apply kc_ret.
  - repeat kc_step. apply IH.
Qed.

Lemma kc_markers_N : keeps_counters (markers_N colors).
Proof. unfold markers_N. repeat kc_step. apply kc_gyro_lines_N. Qed.

Lemma kc_sim_C_loop fams : forall XY8, keeps_counters (sim_C_loop (F := F) fams XY8).
Proof.
  induction fams as [ | fam rest IH]; intros XY8; simpl.
  - apply kc_ret.
  - kc_step; [kc_step | ].
    destruct (read_where_C a fam); repeat kc_step; apply IH.
Qed.

Lemma kc_sim_C : keeps_counters (sim_C (F := F)).
Proof. unfold sim_C. kc_step; [kc_step | apply kc_sim_C_loop]. Qed.

Lemma kc_expt_C XY8 : keeps_counters (expt_C loadtxt XY8).
Proof. unfold expt_C. repeat kc_step. Qed.

Lemma kc_gyro_lines_C vals : forall idx, keeps_counters (gyro_lines_C colors idx vals).
Proof.
  induction vals as [ | val rest IH]; intros idx; simpl.
  - apply kc_ret.
  - repeat kc_step. apply IH.
Qed.

Lemma kc_markers_C : keeps_counters (markers_C colors).
Proof. unfold markers_C. repeat kc_step. apply kc_gyro_lines_C. Qed.

(** Everything before the closing statements. *)
Definition draw_N : M (app F) unit :=
  ax_clear ;;; XY8 <- sim_N ;; expt_N loadtxt XY8 ;;; markers_N colors.

Definition draw_C : M (app F) unit :=
  ax_clear ;;; XY8 <- sim_C ;; expt_C loadtxt XY8 ;;; markers_C colors.

Lemma kc_draw_N : keeps_counters draw_N.
Proof.
  unfold draw_N. kc_step; [apply kc_ax_clear | ].
  kc_step; [apply kc_sim_N | ].
  kc_step; [apply kc_expt_N | apply kc_markers_N].
Qed.

Lemma kc_draw_C : keeps_counters draw_C.
Proof.
  unfold draw_C. kc_step; [apply kc_ax_clear | ].
  kc_step; [apply kc_sim_C | ].
  kc_step; [apply kc_expt_C | apply kc_markers_C].
Qed.

Lemma update_plot_N_draw self :
  update_plot_N colors loadtxt self
  = match draw_N self with
    | (inl e, s) => (inl e, s)
    | (inr _, s) => finish_N s
    end.
Proof.
  unfold update_plot_N, draw_N, bind.
  destruct (ax_clear self) as [[e | []] s0]; [reflexivity | ].
  destruct (sim_N s0) as [[e | XY8] s1]; [reflexivity | ].
  destruct (expt_N loadtxt XY8 s1) as [[e | []] s2]; [reflexivity | ].
  destruct (markers_N colors s2) as [[e | []] s3]; reflexivity.
Qed.

Lemma update_plot_C_draw self :
  update_plot_C colors loadtxt self
  = match draw_C self with
    | (inl e, s) => (inl e, s)
    | (inr _, s) => finish_C s
    end.
Proof.
  unfold update_plot_C, draw_C, bind.
  destruct (ax_clear self) as [[e | []] s0]; [reflexivity | ].
  destruct (sim_C s0) as [[e | XY8] s1]; [reflexivity | ].
  destruct (expt_C loadtxt XY8 s1) as [[e | []] s2]; [reflexivity | ].
  destruct (markers_C colors s2) as [[e | []] s3]; reflexivity.
Qed.

(** The closing statements raise before they change anything, or run to
    the end. *)
Lemma finish_N_cases (s : app F) :
  (exists e, finish_N s = (inl e, s))
  \/ (exists lbl, finish_N s = (inr tt, finished lbl s)).
Proof.
  unfold finish_N, bind, get, lift.
  destruct (if radio2_N (tabN s)
            then py_index unit_label_f (unit_btngrp_N (tabN s))
            else py_index unit_label_t (unit_btngrp_N (tabN s))) as [e | lbl].
  - left. exists e. reflexivity.
  - right. exists lbl. reflexivity.
Qed.

Lemma finish_C_cases (s : app F) :
  (exists e, finish_C s = (inl e, s))
  \/ (exists lbl, finish_C s = (inr tt, finished lbl s)).
Proof.
  unfold finish_C, bind, get, lift.
  destruct (if radio2_C (tabC s)
            then py_index unit_label_f (unit_btngrp_C (tabC s))
            else py_index unit_label_t (unit_btngrp_C (tabC s))) as [e | lbl].
  - left. exists e. reflexivity.
  - right. exists lbl. reflexivity.
Qed.

(** The outcome of a render, read on the counters. *)
Definition redrawn_iff_completed (self : app F) (r : (exn + unit) * app F) : Prop :=
  match fst r with
  | inr _ => counters (snd r) = (S (draws (fig self)), true)
  | inl _ => counters (snd r) = counters self
  end.

Lemma update_plot_N_outcome (self : app F) :
  redrawn_iff_completed self (update_plot_N colors loadtxt self).
Proof.
  unfold redrawn_iff_completed. rewrite update_plot_N_draw.
  pose proof (kc_draw_N self) as Hkc.
  destruct (draw_N self) as [[e | []] s]; simpl in Hkc; [exact Hkc | ].
  destruct (finish_N_cases s) as [[e ->] | [lbl ->]]; simpl.
  - exact Hkc.
  - unfold counters in *. simpl. injection Hkc as -> _. reflexivity.
Qed.

Lemma update_plot_C_outcome (self : app F) :
  redrawn_iff_completed self (update_plot_C colors loadtxt self).
Proof.
  unfold redrawn_iff_completed. rewrite update_plot_C_draw.
  pose proof (kc_draw_C self) as Hkc.
  destruct (draw_C self) as [[e | []] s]; simpl in Hkc; [exact Hkc | ].
  destruct (finish_C_cases s) as [[e ->] | [lbl ->]]; simpl.
  - exact Hkc.
  - unfold counters in *. simpl. injection Hkc as -> _. reflexivity.
Qed.

(** X7: [update_plot_N] and [update_plot_C] redraw the canvas exactly once
    and set [plot_ready] when they return normally; when they raise, the
    number of redraws and [plot_ready] are what they were before the
    call. *)
Theorem canvas_redrawn_iff_completed (self : app F) :
  redrawn_iff_completed self (update_plot_N colors loadtxt self)
  /\ redrawn_iff_completed self (update_plot_C colors loadtxt self).
Proof.
  split; [apply update_plot_N_outcome | apply update_plot_C_outcome].
Qed.

End Counters.

(** ** The picture depends on the data and the widgets only *)

Section Picture.

Context {F : Type} `{Float64 F}.
Variable colors : list string.
Variable loadtxt : string -> exn + ndarray F.

Local Open Scope py_scope.

(** Same data, same widgets, same axes and label; the message boxes
    shown, the redraw count and [plot_ready] may differ. *)
Definition same_picture (s s' : app F) : Prop :=
  data s = data s' /\ tabN s = tabN s' /\ tabC s = tabC s'
  /\ ax (fig s) = ax (fig s') /\ xlabel (fig s) = xlabel (fig s').

Definition stable {A} (m : M (app F) A) : Prop :=
  forall s s',
    same_picture s s' ->
    fst (m s) = fst (m s') /\ same_picture (snd (m s)) (snd (m s')).

Lemma stable_ret A (a : A) : stable (ret a).
Proof. intros s s' Hs. split; [reflexivity | exact Hs]. Qed.

Lemma stable_lift A (r : exn + A) : stable (lift r).
Proof. intros s s' Hs. split; [reflexivity | exact Hs]. Qed.

Lemma stable_bind A B (m : M (app F) A) (k : A -> M (app F) B) :
  stable m -> (forall a, stable (k a)) -> stable (bind m k).
Proof.
  intros Hm Hk s s' Hs. unfold bind.
  destruct (Hm s s' Hs) as [Hfst Hsnd].
  destruct (m s) as [[e | a] s1], (m s') as [[e' | a'] s1']; simpl in *;
    try discriminate.
  - split; [congruence | exact Hsnd].
  - injection Hfst as <-. apply Hk. exact Hsnd.
Qed.

Lemma stable_if A (b : bool) (m1 m2 : M (app F) A) :
  stable m1 -> stable m2 -> stable (if b then m1 else m2).
Proof. destruct b; auto. Qed.

(** A statement that reads [self] through the data and the widgets. *)
Lemma stable_read A (k : app F -> M (app F) A) :
  (forall s0, stable (k s0)) ->
  (forall d n c g g', k (mkApp d n c g) = k (mkApp d n c g')) ->
  stable (bind get k).
Proof.
  intros Hk Hext s s' Hs. unfold bind, get.
  assert (Heq : k s = k s').
  { destruct s as [d n c g], s' as [d' n' c' g'].
    destruct Hs as (Hd & Hn & Hc & _). simpl in Hd, Hn, Hc. subst.
    apply Hext. }
  rewrite Heq. apply Hk. exact Hs.
Qed.

Lemma stable_ax_add a : stable (ax_add (F := F) a).
Proof.
  intros s s' (Hd & Hn & Hc & Ha & Hx). split; [reflexivity | ].
  repeat split; simpl; congruence.
Qed.

Lemma stable_box_exec b : stable (box_exec (F := F) b).
Proof.
  intros s s' (Hd & Hn & Hc & Ha & Hx). split; [reflexivity | ].
  repeat split; simpl; congruence.
Qed.

Lemma stable_set_xlabel l : stable (ax_set_xlabel (F := F) l).
Proof.
  intros s s' (Hd & Hn & Hc & Ha & Hx). split; [reflexivity | ].
  repeat split; simpl; congruence.
Qed.

Lemma stable_canvas_draw : stable (canvas_draw (F := F)).
Proof.
  intros s s' (Hd & Hn & Hc & Ha & Hx). split; [reflexivity | ].
  repeat split; simpl; congruence.
Qed.

Lemma stable_set_plot_ready b : stable (set_plot_ready (F := F) b).
Proof.
  intros s s' (Hd & Hn & Hc & Ha & Hx). split; [reflexivity | ].
  repeat split; simpl; congruence.
Qed.

Ltac stable_step :=
  first [ apply stable_bind; [ | intro ]
        | apply stable_if
        | apply stable_ret | apply stable_lift
        | apply stable_ax_add | apply stable_box_exec
        | apply stable_set_xlabel | apply stable_canvas_draw
        | apply stable_set_plot_ready ].

Lemma stable_sim_N : stable (sim_N (F := F)).
Proof.
  unfold sim_N. apply stable_read.
  - intros s0. destruct (read_where_N s0); repeat stable_step.
  - reflexivity.
Qed.

Lemma stable_expt_N XY8 : stable (expt_N loadtxt XY8).
Proof.
  unfold expt_N. apply stable_read.
  - intros s0. repeat stable_step.
  - reflexivity.
Qed.

Lemma stable_gyro_lines_N vals : forall idx, stable (gyro_lines_N colors idx vals).
Proof.
  induction vals as [ | val rest IH]; intros idx; simpl.
  - apply stable_ret.
  - apply stable_read.
    + intros s0. repeat stable_step. apply IH.
    + reflexivity.
Qed.

Lemma stable_markers_N : stable (markers_N colors).
Proof.
  unfold markers_N. apply stable_read.
  - intros s0. repeat stable_step. apply stable_gyro_lines_N.
  - reflexivity.
Qed.

Lemma stable_finish_N : stable (finish_N (F := F)).
Proof.
  unfold finish_N. apply stable_read.
  - intros s0. repeat stable_step.
  - reflexivity.
Qed.

Lemma stable_sim_C_loop fams : forall XY8, stable (sim_C_loop (F := F) fams XY8).
Proof.
  induction fams as [ | fam rest IH]; intros XY8; simpl.
  - apply stable_ret.
  - apply stable_read.
    + intros s0. destruct (read_where_C s0 fam); repeat stable_step; apply IH.
    + reflexivity.
Qed.

Lemma stable_sim_C : stable (sim_C (F := F)).
Proof.
  unfold sim_C. apply stable_read.
  - intros s0. apply stable_sim_C_loop.
  - reflexivity.
Qed.

Lemma stable_expt_C XY8 : stable (expt_C loadtxt XY8).
Proof.
  unfold expt_C. apply stable_read.
  - intros s0. repeat stable_step.
  - reflexivity.
Qed.

Lemma stable_gyro_lines_C vals : forall idx, stable (gyro_lines_C colors idx vals).
Proof.
  induction vals as [ | val rest IH]; intros idx; simpl.
  - apply stable_ret.
  - apply stable_read.
    + intros s0. repeat stable_step. apply IH.
    + reflexivity.
Qed.

Lemma stable_markers_C : stable (markers_C colors).
Proof.
  unfold markers_C. apply stable_read.
  - intros s0. repeat stable_step. apply stable_gyro_lines_C.
  - reflexivity.
Qed.

Lemma stable_finish_C : stable (finish_C (F := F)).
Proof.
  unfold finish_C. apply stable_read.
  - intros s0. repeat stable_step.
  - reflexivity.
Qed.

(** After [ax.clear()] nothing of the old figure shows. *)
Lemma cleared_same_picture (s s' : app F) :
  same_inputs s s' -> same_picture (cleared s) (cleared s').
Proof.
  intros (Hd & Hn & Hc). repeat split; simpl; congruence.
Qed.

Lemma update_plot_N_cleared s :
  update_plot_N colors loadtxt s
  = (XY8 <- sim_N ;; expt_N loadtxt XY8 ;;; markers_N colors ;;; finish_N)
      (cleared s).
Proof. reflexivity. Qed.

Lemma update_plot_C_cleared s :
  update_plot_C colors loadtxt s
  = (XY8 <- sim_C ;; expt_C loadtxt XY8 ;;; markers_C colors ;;; finish_C)
      (cleared s).
Proof. reflexivity. Qed.

Lemma update_plot_N_same_inputs (s s' : app F) :
  same_inputs s s' ->
  fst (update_plot_N colors loadtxt s) = fst (update_plot_N colors loadtxt s')
  /\ same_picture (snd (update_plot_N colors loadtxt s))
                  (snd (update_plot_N colors loadtxt s')).
Proof.
  intros Hs. rewrite !update_plot_N_cleared.
  assert (Hst : stable (XY8 <- sim_N ;; expt_N loadtxt XY8 ;;;
                        markers_N colors ;;; finish_N)).
  { apply stable_bind; [apply stable_sim_N | intros XY8].
    apply stable_bind; [apply stable_expt_N | intros _].
    apply stable_bind; [apply stable_markers_N | intros _].
    apply stable_finish_N. }
  apply Hst. apply cleared_same_picture. exact Hs.
Qed.

Lemma update_plot_C_same_inputs (s s' : app F) :
  same_inputs s s' ->
  fst (update_plot_C colors loadtxt s) = fst (update_plot_C colors loadtxt s')
  /\ same_picture (snd (update_plot_C colors loadtxt s))
                  (snd (update_plot_C colors loadtxt s')).
Proof.
  intros Hs. rewrite !update_plot_C_cleared.
  assert (Hst : stable (XY8 <- sim_C ;; expt_C loadtxt XY8 ;;;
                        markers_C colors ;;; finish_C)).
  { apply stable_bind; [apply stable_sim_C | intros XY8].
    apply stable_bind; [apply stable_expt_C | intros _].
    apply stable_bind; [apply stable_markers_C | intros _].
    apply stable_finish_C. }
  apply Hst. apply cleared_same_picture. exact Hs.
Qed.

(** X8: the outcome of a render, the artists on the axes and the x label
    after it depend on the dataset and on the widgets of the two tabs only,
    not on what the figure showed before: [self.ax.clear()] erases the
    history. *)
Theorem picture_depends_on_inputs_only (s s' : app F) :
  data s' = data s -> tabN s' = tabN s -> tabC s' = tabC s ->
  (fst (update_plot_N colors loadtxt s) = fst (update_plot_N colors loadtxt s')
   /\ ax (fig (snd (update_plot_N colors loadtxt s)))
      = ax (fig (snd (update_plot_N colors loadtxt s')))
   /\ xlabel (fig (snd (update_plot_N colors loadtxt s)))
      = xlabel (fig (snd (update_plot_N colors loadtxt s'))))
  /\ (fst (update_plot_C colors loadtxt s) = fst (update_plot_C colors loadtxt s')
      /\ ax (fig (snd (update_plot_C colors loadtxt s)))
         = ax (fig (snd (update_plot_C colors loadtxt s')))
      /\ xlabel (fig (snd (update_plot_C colors loadtxt s)))
         = xlabel (fig (snd (update_plot_C colors loadtxt s')))).
Proof.
  intros Hd Hn Hc.
  assert (Hs : same_inputs s s') by (repeat split; assumption).
  split.
  - destruct (update_plot_N_same_inputs Hs) as (Hf & _ & _ & _ & Ha & Hx).
    repeat split; assumption.
  - destruct (update_plot_C_same_inputs Hs) as (Hf & _ & _ & _ & Ha & Hx).
    repeat split; assumption.
Qed.

End Picture.

(** ** [resizeEvent] *)

Section Resize.

Context {F : Type} `{Float64 F}.
Variable colors : list string.
Variable loadtxt : string -> exn + ndarray F.

Local Open Scope py_scope.

(** [resizeEvent], for the index [self.tab_widget.currentIndex()] of the
    tab that is open. *)
Definition resizeEvent (currentIndex : Z) : M (app F) unit :=
  self <- get ;;
  if plot_ready (fig self)
  then
    if (currentIndex =? 0)%Z then update_plot_N colors loadtxt
    else if (currentIndex =? 1)%Z then update_plot_C colors loadtxt
    else ret tt
  else ret tt.

Lemma resizeEvent_ready (self : app F) i :
  plot_ready (fig self) = true ->
  resizeEvent i self
  = if (i =? 0)%Z then update_plot_N colors loadtxt self
    else if (i =? 1)%Z then update_plot_C colors loadtxt self
    else (inr tt, self).
Proof.
  intros Hready. unfold resizeEvent, bind, get. rewrite Hready.
  destruct (i =? 0)%Z; [reflexivity | ].
  destruct (i =? 1)%Z; reflexivity.
Qed.

(** A second run on the state the first one left. *)
Lemma update_plot_N_again (self : app F) :
  fst (update_plot_N colors loadtxt self) = inr tt ->
  fst (update_plot_N colors loadtxt (snd (update_plot_N colors loadtxt self)))
  = inr tt
  /\ same_picture
       (snd (update_plot_N colors loadtxt self))
       (snd (update_plot_N colors loadtxt (snd (update_plot_N colors loadtxt self))))
  /\ counters (snd (update_plot_N colors loadtxt
                      (snd (update_plot_N colors loadtxt self))))
     = (S (S (draws (fig self))), true).
Proof.
  intros Hok.
  pose proof (frame_update_plot_N colors loadtxt self) as Hframe.
  destruct (update_plot_N_same_inputs colors loadtxt Hframe) as [Hfst Hpic].
  pose proof (update_plot_N_outcome colors loadtxt self) as Hout1.
  pose proof (update_plot_N_outcome colors loadtxt
                (snd (update_plot_N colors loadtxt self))) as Hout2.
  unfold redrawn_iff_completed in Hout1, Hout2. unfold St in *.
  rewrite Hok in Hout1. rewrite <- Hfst, Hok in Hout2.
  split; [rewrite <- Hfst; exact Hok | ].
  split; [exact Hpic | ].
  rewrite Hout2. unfold counters in Hout1. injection Hout1 as -> _. reflexivity.
Qed.

Lemma update_plot_C_again (self : app F) :
  fst (update_plot_C colors loadtxt self) = inr tt ->
  fst (update_plot_C colors loadtxt (snd (update_plot_C colors loadtxt self)))
  = inr tt
  /\ same_picture
       (snd (update_plot_C colors loadtxt self))
       (snd (update_plot_C colors loadtxt (snd (update_plot_C colors loadtxt self))))
  /\ counters (snd (update_plot_C colors loadtxt
                      (snd (update_plot_C colors loadtxt self))))
     = (S (S (draws (fig self))), true).
Proof.
  intros Hok.
  pose proof (frame_update_plot_C colors loadtxt self) as Hframe.
  destruct (update_plot_C_same_inputs colors loadtxt Hframe) as [Hfst Hpic].
  pose proof (update_plot_C_outcome colors loadtxt self) as Hout1.
  pose proof (update_plot_C_outcome colors loadtxt
                (snd (update_plot_C colors loadtxt self))) as Hout2.
  unfold redrawn_iff_completed in Hout1, Hout2. unfold St in *.
  rewrite Hok in Hout1. rewrite <- Hfst, Hok in Hout2.
  split; [rewrite <- Hfst; exact Hok | ].
  split; [exact Hpic | ].
  rewrite Hout2. unfold counters in Hout1. injection Hout1 as -> _. reflexivity.
Qed.

(** X9: [resizeEvent] does nothing as long as [plot_ready] is false.
    After a completed [update_plot_N], a resize with the first tab open
    repeats that render: it returns normally, leaves the same artists and x
    label and redraws the canvas once more, and a resize with the second tab
    open runs [update_plot_C]; symmetrically after a completed
    [update_plot_C]. *)
Theorem resize_redraws_the_plot (self : app F) :
  (forall i, plot_ready (fig self) = false -> resizeEvent i self = (inr tt, self))
  /\ (fst (update_plot_N colors loadtxt self) = inr tt ->
      fst (resizeEvent 0 (snd (update_plot_N colors loadtxt self))) = inr tt
      /\ same_picture (snd (update_plot_N colors loadtxt self))
                      (snd (resizeEvent 0 (snd (update_plot_N colors loadtxt self))))
      /\ draws (fig (snd (resizeEvent 0 (snd (update_plot_N colors loadtxt self)))))
         = S (S (draws (fig self)))
      /\ resizeEvent 1 (snd (update_plot_N colors loadtxt self))
         = update_plot_C colors loadtxt (snd (update_plot_N colors loadtxt self)))
  /\ (fst (update_plot_C colors loadtxt self) = inr tt ->
      fst (resizeEvent 1 (snd (update_plot_C colors loadtxt self))) = inr tt
      /\ same_picture (snd (update_plot_C colors loadtxt self))
                      (snd (resizeEvent 1 (snd (update_plot_C colors loadtxt self))))
      /\ draws (fig (snd (resizeEvent 1 (snd (update_plot_C colors loadtxt self)))))
         = S (S (draws (fig self)))
      /\ resizeEvent 0 (snd (update_plot_C colors loadtxt self))
         = update_plot_N colors loadtxt (snd (update_plot_C colors loadtxt self))).
Proof.
  split; [ | split].
  - intros i Hready. unfold resizeEvent, bind, get. rewrite Hready. reflexivity.
  - intros Hok.
    assert (Hready : plot_ready (fig (snd (update_plot_N colors loadtxt self))) = true).
    { pose proof (update_plot_N_outcome colors loadtxt self) as Hout.
      unfold redrawn_iff_completed in Hout. unfold St in *. rewrite Hok in Hout.
      unfold counters in Hout. injection Hout as _ ->. reflexivity. }
    rewrite !(@resizeEvent_ready _ _ Hready). simpl.
    destruct (@update_plot_N_again _ Hok) as (Hfst & Hpic & Hcnt).
    split; [exact Hfst | ]. split; [exact Hpic | ].
    split; [ | reflexivity].
    unfold counters in Hcnt. injection Hcnt as Hd _. exact Hd.
  - intros Hok.
    assert (Hready : plot_ready (fig (snd (update_plot_C colors loadtxt self))) = true).
    { pose proof (update_plot_C_outcome colors loadtxt self) as Hout.
      unfold redrawn_iff_completed in Hout. unfold St in *. rewrite Hok in Hout.
      unfold counters in Hout. injection Hout as _ ->. reflexivity. }
    rewrite !(@resizeEvent_ready _ _ Hready). simpl.
    destruct (@update_plot_C_again _ Hok) as (Hfst & Hpic & Hcnt).
    split; [exact Hfst | ]. split; [exact Hpic | ].
    split; [ | reflexivity].
    unfold counters in Hcnt. injection Hcnt as Hd _. exact Hd.
Qed.

End Resize.

(** ** The markers follow the unit of the axis *)

Module UnitScaling.

Import ExactFacts.
Import MarkerPositions.

Lemma Qcinv_nonzero (q : Qc) : q <> 0%Qc -> (/ q)%Qc <> 0%Qc.
Proof.
  intros Hq H0. apply Qcmult_inv_r in Hq. rewrite H0 in Hq.
  assert (Hz : (q * 0)%Qc = 0%Qc) by ring.
  rewrite Hz in Hq. discriminate.
Qed.

Lemma Qcmult_nonzero (a b : Qc) : a <> 0%Qc -> b <> 0%Qc -> (a * b)%Qc <> 0%Qc.
Proof.
  intros Ha Hb H0. apply Qcmult_integral in H0. destruct H0; contradiction.
Qed.

Lemma Qcdiv_nonzero (a b : Qc) : a <> 0%Qc -> b <> 0%Qc -> (a / b)%Qc <> 0%Qc.
Proof.
  intros Ha Hb. apply Qcmult_nonzero; [exact Ha | apply Qcinv_nonzero; exact Hb].
Qed.

Lemma div_fin (a b : Qc) :
  b <> 0%Qc -> fdiv (Fin a) (Fin b) = Fin (a / b)%Qc.
Proof. intros Hb. simpl. rewrite (is_zero_false Hb). reflexivity. Qed.

Lemma mul_fin (a b : Qc) : fmul (Fin a) (Fin b) = Fin (a * b)%Qc.
Proof. reflexivity. Qed.

(** The literals of the marker formula. *)
Definition c1 : Qc := Q2Qc (inject_Z 1).
Definition c2 : Qc := Q2Qc (inject_Z 2).
Definition c1000 : Qc := Q2Qc (inject_Z 1000).

Lemma c1_one : c1 = 1%Qc.
Proof. apply Qc_is_canon. reflexivity. Qed.

Lemma c1_nonzero : c1 <> 0%Qc.
Proof. discriminate. Qed.
Lemma c2_nonzero : c2 <> 0%Qc.
Proof. discriminate. Qed.
Lemma c1000_nonzero : c1000 <> 0%Qc.
Proof. discriminate. Qed.

(** The time of a marker for a ratio, a multiplier and a field that are
    finite and not zero. *)
Definition pos_fin (g qm b : Qc) : Qc :=
  (c1 / (c2 * g / qm * b * (c1 / c1000)))%Qc.

Lemma pos_den_nonzero (g qm b : Qc) :
  g <> 0%Qc -> qm <> 0%Qc -> b <> 0%Qc ->
  (c2 * g / qm * b * (c1 / c1000))%Qc <> 0%Qc.
Proof.
  intros Hg Hm Hb.
  repeat first [ apply Qcdiv_nonzero | apply Qcmult_nonzero
               | apply Qcinv_nonzero | exact Hg | exact Hm | exact Hb
               | exact c1_nonzero | exact c2_nonzero | exact c1000_nonzero ].
Qed.

Lemma pos_fin_nonzero (g qm b : Qc) :
  g <> 0%Qc -> qm <> 0%Qc -> b <> 0%Qc -> pos_fin g qm b <> 0%Qc.
Proof.
  intros Hg Hm Hb. apply Qcdiv_nonzero; [exact c1_nonzero | ].
  apply pos_den_nonzero; assumption.
Qed.

Lemma marker_pos_time (g qm b : Qc) :
  g <> 0%Qc -> qm <> 0%Qc -> b <> 0%Qc ->
  marker_pos (Fin g) (Fin qm) (Fin b) false = Fin (pos_fin g qm b).
Proof.
  intros Hg Hm Hb. unfold marker_pos, lit_1em3. cbv zeta iota.
  change (of_int 1 : xq) with (Fin c1).
  change (of_int 2 : xq) with (Fin c2).
  change (of_int 1000 : xq) with (Fin c1000).
  rewrite (div_fin c1 c1000_nonzero).
  rewrite mul_fin, (div_fin _ Hm), !mul_fin.
  rewrite (div_fin c1 (pos_den_nonzero Hg Hm Hb)). reflexivity.
Qed.

Lemma marker_pos_freq (g qm b : Qc) :
  g <> 0%Qc -> qm <> 0%Qc -> b <> 0%Qc ->
  marker_pos (Fin g) (Fin qm) (Fin b) true = Fin (c1 / c2 / pos_fin g qm b)%Qc.
Proof.
  intros Hg Hm Hb. rewrite marker_pos_time_to_freq, marker_pos_time by assumption.
  unfold time_to_freq.
  change (of_int 1 : xq) with (Fin c1).
  change (of_int 2 : xq) with (Fin c2).
  rewrite (div_fin c1 c2_nonzero).
  rewrite (div_fin _ (pos_fin_nonzero Hg Hm Hb)). reflexivity.
Qed.

End UnitScaling.

(** X10: in exact arithmetic, for a ratio and a field that are finite and
    not zero and each of the four unit multipliers [m], the time of a marker
    is its time in microseconds multiplied by [m], and its frequency is its
    frequency in MHz divided by [m]: the scalings that [x_axis] applies to
    [self.tau] and [self.freq], so that a marker stays at the same point of
    the curve whatever the unit. *)
Theorem markers_follow_axis_unit (g b : Qc) (m : xq) :
  g <> 0%Qc -> b <> 0%Qc -> In m (unit_list (F := xq)) ->
  marker_pos (Fin g) m (Fin b) false
  = fmul (marker_pos (Fin g) (of_int 1) (Fin b) false) m
  /\ marker_pos (Fin g) m (Fin b) true
     = fdiv (marker_pos (Fin g) (of_int 1) (Fin b) true) m
  /\ (forall d : dataset xq,
        x_axis_of false m d = map (fun t => fmul t m) (tau d)
        /\ x_axis_of true m d = map (fun f => fdiv f m) (freq d)).
Proof.
  intros Hg Hb Hm.
  destruct (MarkerPositions.unit_list_nonzero Hm) as (qm & -> & Hq).
  change (of_int 1 : xq) with (Fin UnitScaling.c1).
  pose proof UnitScaling.c1_nonzero as H1.
  pose proof UnitScaling.c2_nonzero as H2.
  pose proof UnitScaling.c1000_nonzero as H3.
  pose proof (UnitScaling.pos_den_nonzero Hg Hq Hb) as Hd.
  pose proof (UnitScaling.pos_den_nonzero Hg H1 Hb) as Hd1.
  pose proof (UnitScaling.pos_fin_nonzero Hg Hq Hb) as Hp.
  pose proof (UnitScaling.pos_fin_nonzero Hg H1 Hb) as Hp1.
  rewrite !UnitScaling.marker_pos_time, !UnitScaling.marker_pos_freq by assumption.
  split; [ | split].
  - rewrite UnitScaling.mul_fin. f_equal. unfold UnitScaling.pos_fin in *.
    rewrite UnitScaling.c1_one in *. field. repeat split; assumption.
  - rewrite (UnitScaling.div_fin _ Hq). f_equal. unfold UnitScaling.pos_fin in *.
    rewrite UnitScaling.c1_one in *. field. repeat split; assumption.
  - intros d. split; reflexivity.
Qed.

(** ** A complete render *)

Section FullRender.

Context {F : Type} `{Float64 F}.
Variable colors : list string.
Variable loadtxt : string -> exn + ndarray F.

Local Open Scope f64_scope.
Local Open Scope py_scope.

(** What the simulation stage of [update_plot_N] puts on the axes. *)
Definition curve_artist_N (self : app F) (u : F) : artist F :=
  match read_where_N self with
  | [] => Text no_data_text
  | r :: _ => Line (x_axis_of (radio2_N (tabN self)) u (data self)) (n_data r) "Sim"
  end.

(** The conditional expression bound to [x_axis_label]. *)
Definition x_axis_label_of (radio2 : bool) (idx : Z) : exn + string :=
  if radio2 then py_index unit_label_f idx else py_index unit_label_t idx.

Lemma x_axis_label_defined (radio2 : bool) (idx : Z) (u : F) :
  py_index unit_list idx = inr u ->
  exists lbl, x_axis_label_of radio2 idx = inr lbl.
Proof.
  intros Hu. unfold x_axis_label_of. destruct radio2.
  - apply (@py_index_same_length _ _ unit_list unit_label_f _ u eq_refl Hu).
  - apply (@py_index_same_length _ _ unit_list unit_label_t _ u eq_refl Hu).
Qed.

Lemma finish_N_label (self : app F) lbl :
  x_axis_label_of (radio2_N (tabN self)) (unit_btngrp_N (tabN self)) = inr lbl ->
  finish_N self = (inr tt, finished lbl self).
Proof.
  unfold x_axis_label_of. intros Hl.
  unfold finish_N, bind, get, lift. rewrite Hl. reflexivity.
Qed.

Lemma finish_C_label (self : app F) lbl :
  x_axis_label_of (radio2_C (tabC self)) (unit_btngrp_C (tabC self)) = inr lbl ->
  finish_C self = (inr tt, finished lbl self).
Proof.
  unfold x_axis_label_of. intros Hl.
  unfold finish_C, bind, get, lift. rewrite Hl. reflexivity.
Qed.

Lemma sim_N_curve (self : app F) u :
  py_index unit_list (unit_btngrp_N (tabN self)) = inr u ->
  exists XY8,
    sim_N (cleared self)
    = (inr XY8, add_artists [curve_artist_N self u] (cleared self)).
Proof.
  intros Hu. unfold curve_artist_N.
  destruct (read_where_N self) as [ | r rest] eqn:Hrow.
  - exists (Rows []). apply sim_N_not_found. exact Hrow.
  - exists (Data (n_data r)).
    apply (@sim_N_found _ _ (cleared self) u r rest); [exact Hu | exact Hrow].
Qed.

Lemma render_N_without_overlay (self : app F) u :
  expt_chkbox_N (tabN self) && negb (String.eqb (expt_filename_N (tabN self)) "")
  = false ->
  (B0_widget_N (tabN self) == of_int 0) = false ->
  py_index unit_list (unit_btngrp_N (tabN self)) = inr u ->
  Forall (label_ok (gyromagnetic_ratios (data self)))
         (gyromagnetic_widget_N (tabN self)) ->
  (List.length (gyromagnetic_widget_N (tabN self)) < List.length colors)%nat ->
  exists lbl lines,
    x_axis_label_of (radio2_N (tabN self)) (unit_btngrp_N (tabN self)) = inr lbl
    /\ update_plot_N colors loadtxt self
       = (inr tt,
          finished lbl (add_artists (curve_artist_N self u :: lines) (cleared self)))
    /\ Forall2 (marker_at (gyromagnetic_ratios (data self))
                  (fun g => marker_pos g u (B0_widget_N (tabN self))
                                       (radio2_N (tabN self))))
               (gyromagnetic_widget_N (tabN self)) lines.
Proof.
  intros Hoff Hz Hu Hok Hlen.
  destruct (x_axis_label_defined (radio2_N (tabN self)) _ Hu) as [lbl Hl].
  destruct (sim_N_curve self Hu) as [XY8 Hsim].
  set (s1 := add_artists [curve_artist_N self u] (cleared self)) in *.
  destruct (@markers_N_run _ _ colors s1 u Hz Hu Hok Hlen) as (lines & Hrun & Hall).
  exists lbl, lines. split; [exact Hl | ]. split; [ | exact Hall].
  rewrite update_plot_N_unfold, Hsim.
  rewrite (@expt_N_off _ _ loadtxt s1 XY8 Hoff), Hrun.
  rewrite (@finish_N_label (add_artists lines s1) lbl Hl).
  unfold s1. rewrite add_artists_app. reflexivity.
Qed.

Lemma render_C_without_overlay (self : app F) u :
  expt_chkbox_C (tabC self) && negb (String.eqb (expt_filename_C (tabC self)) "")
  = false ->
  (B0_widget_C (tabC self) == of_int 0) = false ->
  py_index unit_list (unit_btngrp_C (tabC self)) = inr u ->
  Forall (label_ok (gyromagnetic_ratios (data self)))
         (gyromagnetic_widget_C (tabC self)) ->
  (List.length (gyromagnetic_widget_C (tabC self)) < List.length colors)%nat ->
  exists lbl lines,
    x_axis_label_of (radio2_C (tabC self)) (unit_btngrp_C (tabC self)) = inr lbl
    /\ update_plot_C colors loadtxt self
       = (inr tt,
          finished lbl
            (add_artists
               (map (family_artist self u) (families_widget (tabC self)) ++ lines)%list
               (cleared self)))
    /\ Forall2 (marker_at (gyromagnetic_ratios (data self))
                  (fun g => marker_pos g u (B0_widget_C (tabC self))
                                       (radio2_C (tabC self))))
               (gyromagnetic_widget_C (tabC self)) lines.
Proof.
  intros Hoff Hz Hu Hok Hlen.
  destruct (x_axis_label_defined (radio2_C (tabC self)) _ Hu) as [lbl Hl].
  pose proof (@sim_C_run _ _ (cleared self) u Hu) as Hsim.
  set (s1 := add_artists (map (family_artist (cleared self) u)
                              (families_widget (tabC (cleared self))))
                         (cleared self)) in *.
  destruct (@markers_C_run _ _ colors s1 u Hz Hu Hok Hlen) as (lines & Hrun & Hall).
  exists lbl, lines. split; [exact Hl | ]. split; [ | exact Hall].
  rewrite update_plot_C_unfold, Hsim.
  rewrite (@expt_C_off _ _ loadtxt s1 _ Hoff), Hrun.
  rewrite (@finish_C_label (add_artists lines s1) lbl Hl).
  unfold s1. rewrite add_artists_app. reflexivity.
Qed.

(** X11: a render without overlay, with a field that is not zero, a valid
    unit index, labels of the dictionary and fewer labels than colours,
    returns normally and leaves on the cleared axes the simulated curve or
    the placeholder (one per family for 13C), then one marker per selected
    label, in the order of the selection and at the position of its ratio,
    then the arXiv text; the x label is the one of the unit, the canvas is
    redrawn once and [plot_ready] is set. *)
Theorem render_without_overlay (self : app F) (u : F) :
  (expt_chkbox_N (tabN self) && negb (String.eqb (expt_filename_N (tabN self)) "")
   = false ->
   (B0_widget_N (tabN self) == of_int 0) = false ->
   py_index unit_list (unit_btngrp_N (tabN self)) = inr u ->
   Forall (label_ok (gyromagnetic_ratios (data self)))
          (gyromagnetic_widget_N (tabN self)) ->
   (List.length (gyromagnetic_widget_N (tabN self)) < List.length colors)%nat ->
   exists lbl lines,
     x_axis_label_of (radio2_N (tabN self)) (unit_btngrp_N (tabN self)) = inr lbl
     /\ update_plot_N colors loadtxt self
        = (inr tt,
           finished lbl (add_artists (curve_artist_N self u :: lines) (cleared self)))
     /\ Forall2 (marker_at (gyromagnetic_ratios (data self))
                   (fun g => marker_pos g u (B0_widget_N (tabN self))
                                        (radio2_N (tabN self))))
                (gyromagnetic_widget_N (tabN self)) lines)
  /\ (expt_chkbox_C (tabC self) && negb (String.eqb (expt_filename_C (tabC self)) "")
      = false ->
      (B0_widget_C (tabC self) == of_int 0) = false ->
      py_index unit_list (unit_btngrp_C (tabC self)) = inr u ->
      Forall (label_ok (gyromagnetic_ratios (data self)))
             (gyromagnetic_widget_C (tabC self)) ->
      (List.length (gyromagnetic_widget_C (tabC self)) < List.length colors)%nat ->
      exists lbl lines,
        x_axis_label_of (radio2_C (tabC self)) (unit_btngrp_C (tabC self)) = inr lbl
        /\ update_plot_C colors loadtxt self
           = (inr tt,
              finished lbl
                (add_artists
                   (map (family_artist self u) (families_widget (tabC self))
                    ++ lines)%list
                   (cleared self)))
        /\ Forall2 (marker_at (gyromagnetic_ratios (data self))
                      (fun g => marker_pos g u (B0_widget_C (tabC self))
                                           (radio2_C (tabC self))))
                   (gyromagnetic_widget_C (tabC self)) lines).
Proof.
  split.
  - apply render_N_without_overlay.
  - apply render_C_without_overlay.
Qed.

End FullRender.

(** ** Worked instances *)

Module Cases.

Section Generic.

Context {F : Type} `{Float64 F}.

Local Open Scope f64_scope.

(** A table of ten nuclei, as many as the colour cycle has colours. *)
Definition h5_ten : h5file (F := F) :=
  {| n15_table := n15_table Sample.h5;
     c13_table := c13_table Sample.h5;
     gyro_table := [("H-1", of_int 42577 / of_int 1000);
                    ("H-2", of_int 6536 / of_int 1000);
                    ("C-13", of_int 107084 / of_int 10000);
                    ("N-14", of_int 3077 / of_int 1000);
                    ("N-15", of_int (-4316) / of_int 1000);
                    ("O-17", of_int (-5772) / of_int 1000);
                    ("F-19", of_int 40052 / of_int 1000);
                    ("Na-23", of_int 11262 / of_int 1000);
                    ("Si-29", of_int (-8465) / of_int 1000);
                    ("P-31", of_int 17235 / of_int 1000)] |}.

Definition loaded_ten : dataset F :=
  match load_data h5_ten with
  | inr d => d
  | inl _ => Sample.no_data
  end.

(** The request of [Sample.request] without overlay, after "Select all"
    on the list of nuclei. *)
Definition select_all (B0 : F) : app F :=
  {| data := loaded_ten;
     tabN := {| ms_widget_N := -1; M_widget_N := 8; B0_widget_N := B0;
                theta_widget_N := of_int 0;
                gyromagnetic_widget_N := map fst (gyromagnetic_ratios loaded_ten);
                unit_btngrp_N := 1; radio2_N := false;
                expt_chkbox_N := false; expt_filename_N := "" |};
     tabC := {| ms_widget_C := -1; M_widget_C := 8; B0_widget_C := B0;
                families_widget := ["A"; "B"];
                gyromagnetic_widget_C := map fst (gyromagnetic_ratios loaded_ten);
                unit_btngrp_C := 1; radio2_C := false;
                expt_chkbox_C := false; expt_filename_C := "" |};
     fig := Sample.blank |}.

(** A table with a name that has no dash. *)
Definition undashed : h5file (F := F) :=
  {| n15_table := []; c13_table := [];
     gyro_table := [("H-1", of_int 42577 / of_int 1000);
                    ("electron", of_int 28025)] |}.

(** [np.loadtxt] on a file of one line gives a one-dimensional array. *)
Definition one_line (path : string) : exn + ndarray F :=
  inr (Arr1 [of_int 0; of_int 1]).

(** The same request with another selection of families. *)
Definition with_families (fams : list string) (self : app F) : app F :=
  {| data := data self;
     tabN := tabN self;
     tabC := let w := tabC self in
             {| ms_widget_C := ms_widget_C w; M_widget_C := M_widget_C w;
                B0_widget_C := B0_widget_C w; families_widget := fams;
                gyromagnetic_widget_C := gyromagnetic_widget_C w;
                unit_btngrp_C := unit_btngrp_C w; radio2_C := radio2_C w;
                expt_chkbox_C := expt_chkbox_C w;
                expt_filename_C := expt_filename_C w |};
     fig := fig self |}.

(** The same request on a window that has shown other plots before. *)
Definition used (self : app F) : app F :=
  {| data := data self; tabN := tabN self; tabC := tabC self;
     fig := {| ax := [Text "old"]; xlabel := "old"; boxes := [B0err];
               draws := 7; plot_ready := true |} |}.

End Generic.

End Cases.

Ltac labels_ok :=
  repeat (constructor;
          [split; [eexists; reflexivity | do 3 eexists; reflexivity] | ]);
  try constructor.

Ltac plain_parts el a :=
  exists el, a; repeat split; reflexivity.

Lemma rich_key_round_trip_witness :
  rename_keys [("H-1", (of_int 42 : float))] []
  = inr [("<sup>1</sup>H", (of_int 42 : float))]
  /\ gyro_key_map "<sup>1</sup>H" = ["1"; "H"].
Proof.
  apply (@rich_key_round_trip float "H" "1" (of_int 42)).
  - split; reflexivity.
  - split; reflexivity.
Defined.

Lemma load_data_raises_on_undashed_name_witness :
  (exists d, load_data (Sample.h5 (F := float)) = inr d)
  /\ load_data (Cases.undashed (F := float)) = inl IndexError.
Proof.
  split.
  - apply (proj1 (@load_data_raises_on_undashed_name float binary64 Sample.h5)).
    intros kv [<- | [<- | []]]; reflexivity.
  - apply (proj2 (@load_data_raises_on_undashed_name float binary64 Cases.undashed)).
    exists ("electron", of_int 28025). split; [right; left; reflexivity | reflexivity].
Defined.

Lemma load_data_files_every_ratio_witness :
  exists d,
    load_data (Sample.h5 (F := float)) = inr d
    /\ Forall2 filed (gyro_table (Sample.h5 (F := float))) (gyromagnetic_ratios d)
    /\ (forall el a v,
          plain el -> plain a ->
          In (substance el a, v) (gyro_table (Sample.h5 (F := float))) ->
          dict_get (gyromagnetic_ratios d) (rich_key el a) = inr v
          /\ gyro_key_map (rich_key el a) = [a; el]).
Proof.
  apply (@load_data_files_every_ratio float binary64 Sample.h5).
  - constructor; [plain_parts "H" "1" | ].
    constructor; [plain_parts "C" "13" | constructor].
  - constructor; [simpl; intros [E | []]; discriminate | ].
    constructor; [simpl; intros [] | constructor].
Defined.

Lemma too_many_labels_raise_witness :
  exists lines,
    markers_N Sample.colors (Cases.select_all (of_int 5 : float))
    = (inl IndexError, add_artists lines (Cases.select_all (of_int 5 : float)))
    /\ List.length lines = 9%nat
    /\ Forall2 (marker_at (gyromagnetic_ratios (Cases.loaded_ten (F := float)))
                  (fun g => marker_pos g (of_int 1) (of_int 5) false))
               (firstn 9 (map fst (gyromagnetic_ratios (Cases.loaded_ten (F := float)))))
               lines.
Proof.
  apply (proj1 (@too_many_labels_raise float binary64 Sample.colors
                  (Cases.select_all (of_int 5 : float))) (of_int 1)).
  - reflexivity.
  - reflexivity.
  - vm_compute gyromagnetic_widget_N. labels_ok.
  - discriminate.
  - vm_compute. lia.
Defined.

Lemma loaded_labels_are_drawn_witness :
  exists lines,
    markers_N Sample.colors (Sample.request (of_int 5 : float) "expt.txt")
    = (inr tt, add_artists lines (Sample.request (of_int 5 : float) "expt.txt"))
    /\ List.length lines = 2%nat.
Proof.
  apply (proj1 (@loaded_labels_are_drawn float binary64 Sample.colors Sample.h5
                  (Sample.request (of_int 5 : float) "expt.txt")
                  ltac:(constructor; [plain_parts "H" "1" | ];
                        constructor; [plain_parts "C" "13" | constructor])
                  eq_refl) (of_int 1)).
  - reflexivity.
  - reflexivity.
  - intros k [<- | [<- | []]]; [left | right; left]; reflexivity.
  - simpl. lia.
Defined.

Lemma overlay_without_reference_raises_witness :
  (exists e,
     update_plot_N Sample.colors Sample.loadtxt
       (Sample.request (of_int 6 : float) "expt.txt")
     = (inl e, add_artists [Text no_data_text]
                 (cleared (Sample.request (of_int 6 : float) "expt.txt"))))
  /\ (exists e,
        update_plot_C Sample.colors Sample.loadtxt
          (Sample.request (of_int 7 : float) "expt.txt")
        = (inl e,
           add_artists
             (map (family_artist (Sample.request (of_int 7 : float) "expt.txt")
                                 (of_int 1))
                  ["A"; "B"])
             (cleared (Sample.request (of_int 7 : float) "expt.txt"))))
  /\ update_plot_C Sample.colors Sample.loadtxt
       (Cases.with_families [] (Sample.request (of_int 5 : float) "expt.txt"))
     = (inl UnboundLocalError,
        cleared (Cases.with_families []
                   (Sample.request (of_int 5 : float) "expt.txt"))).
Proof.
  assert (Huse : usable (Arr2 [[of_int 0; of_int 1]; [of_int 1; of_int 3];
                               [of_int 2; (of_int 2 : float)]])).
  { do 3 eexists. repeat split; reflexivity. }
  split; [ | split].
  - apply (proj1 (@overlay_without_reference_raises float binary64 Sample.colors
                    Sample.loadtxt (Sample.request (of_int 6 : float) "expt.txt")
                    _ Huse)).
    + split; [reflexivity | discriminate].
    + reflexivity.
    + reflexivity.
  - apply (proj1 (proj2 (@overlay_without_reference_raises float binary64
                           Sample.colors Sample.loadtxt
                           (Sample.request (of_int 7 : float) "expt.txt")
                           _ Huse)) (of_int 1) ["A"] "B").
    + split; [reflexivity | discriminate].
    + reflexivity.
    + reflexivity.
    + reflexivity.
    + reflexivity.
  - apply (proj2 (proj2 (@overlay_without_reference_raises float binary64
                           Sample.colors Sample.loadtxt
                           (Cases.with_families []
                              (Sample.request (of_int 5 : float) "expt.txt"))
                           _ Huse))).
    + split; [reflexivity | discriminate].
    + reflexivity.
    + reflexivity.
Defined.

Lemma one_dimensional_overlay_raises_witness :
  (exists a,
     update_plot_N Sample.colors Cases.one_line
       (Sample.request (of_int 5 : float) "line.txt")
     = (inl IndexError,
        add_artists [a] (cleared (Sample.request (of_int 5 : float) "line.txt")))
     /\ sim_artist a)
  /\ update_plot_C Sample.colors Cases.one_line
       (Sample.request (of_int 5 : float) "line.txt")
     = (inl IndexError,
        add_artists
          (map (family_artist (Sample.request (of_int 5 : float) "line.txt")
                              (of_int 1))
               ["A"; "B"])
          (cleared (Sample.request (of_int 5 : float) "line.txt"))).
Proof.
  split.
  - apply (proj1 (@one_dimensional_overlay_raises float binary64 Sample.colors
                    Cases.one_line (Sample.request (of_int 5 : float) "line.txt")
                    [of_int 0; of_int 1]) (of_int 1)).
    + split; [reflexivity | discriminate].
    + reflexivity.
    + reflexivity.
  - apply (proj2 (@one_dimensional_overlay_raises float binary64 Sample.colors
                    Cases.one_line (Sample.request (of_int 5 : float) "line.txt")
                    [of_int 0; of_int 1]) (of_int 1)).
    + split; [reflexivity | discriminate].
    + reflexivity.
    + reflexivity.
Defined.

Lemma picture_depends_on_inputs_only_witness :
  ax (fig (snd (update_plot_N Sample.colors Sample.loadtxt
                  (Sample.request (of_int 5 : float) "expt.txt"))))
  = ax (fig (snd (update_plot_N Sample.colors Sample.loadtxt
                    (Cases.used (Sample.request (of_int 5 : float) "expt.txt")))))
  /\ ax (fig (snd (update_plot_C Sample.colors Sample.loadtxt
                     (Sample.request (of_int 5 : float) "expt.txt"))))
     = ax (fig (snd (update_plot_C Sample.colors Sample.loadtxt
                       (Cases.used (Sample.request (of_int 5 : float) "expt.txt"))))).
Proof.
  destruct (@picture_depends_on_inputs_only float binary64 Sample.colors
              Sample.loadtxt (Sample.request (of_int 5 : float) "expt.txt")
              (Cases.used (Sample.request (of_int 5 : float) "expt.txt"))
              eq_refl eq_refl eq_refl)
    as ((_ & HN & _) & (_ & HC & _)).
  split; [exact HN | exact HC].
Defined.

Lemma resize_redraws_the_plot_witness :
  fst (resizeEvent Sample.colors Sample.loadtxt 0
         (snd (update_plot_N Sample.colors Sample.loadtxt
                 (Sample.request (of_int 5 : float) "expt.txt")))) = inr tt
  /\ draws (fig (snd (resizeEvent Sample.colors Sample.loadtxt 0
                        (snd (update_plot_N Sample.colors Sample.loadtxt
                                (Sample.request (of_int 5 : float) "expt.txt"))))))
     = 2%nat.
Proof.
  destruct (proj1 (proj2 (@resize_redraws_the_plot float binary64 Sample.colors
                            Sample.loadtxt
                            (Sample.request (of_int 5 : float) "expt.txt"))))
    as (Hfst & _ & Hdraws & _).
  - vm_compute. reflexivity.
  - split; [exact Hfst | exact Hdraws].
Defined.

Lemma markers_follow_axis_unit_witness :
  marker_pos (Fin (Q2Qc (42577 # 1000))) lit_1e3 (Fin (Q2Qc 5)) false
  = fmul (marker_pos (Fin (Q2Qc (42577 # 1000))) (of_int 1) (Fin (Q2Qc 5)) false)
         lit_1e3
  /\ marker_pos (Fin (Q2Qc (42577 # 1000))) lit_1e3 (Fin (Q2Qc 5)) true
     = fdiv (marker_pos (Fin (Q2Qc (42577 # 1000))) (of_int 1) (Fin (Q2Qc 5)) true)
            lit_1e3.
Proof.
  destruct (@markers_follow_axis_unit (Q2Qc (42577 # 1000)) (Q2Qc 5) lit_1e3)
    as (Ht & Hf & _).
  - discriminate.
  - discriminate.
  - left. reflexivity.
  - split; [exact Ht | exact Hf].
Defined.

Lemma render_without_overlay_witness :
  exists lbl lines,
    x_axis_label_of false 1 = inr lbl
    /\ update_plot_N Sample.colors Sample.loadtxt
         (overlay_off (Sample.request (of_int 5 : float) "expt.txt"))
       = (inr tt,
          finished lbl
            (add_artists
               (curve_artist_N (overlay_off (Sample.request (of_int 5 : float) "expt.txt"))
                               (of_int 1) :: lines)
               (cleared (overlay_off (Sample.request (of_int 5 : float) "expt.txt")))))
    /\ Forall2 (marker_at (gyromagnetic_ratios (Sample.loaded (F := float)))
                  (fun g => marker_pos g (of_int 1) (of_int 5) false))
               ["<sup>1</sup>H"; "<sup>13</sup>C"] lines.
Proof.
  apply (proj1 (@render_without_overlay float binary64 Sample.colors Sample.loadtxt
                  (overlay_off (Sample.request (of_int 5 : float) "expt.txt"))
                  (of_int 1))).
  - reflexivity.
  - reflexivity.
  - reflexivity.
  - labels_ok.
  - simpl. lia.
Defined.
